(** * mp3extra: embedding cover art and lyrics into the ID3v2 tag of an MP3 file

    A shallow embedding of [main.go] (functions [downloadLrc], [coverArtUrl],
    [fetchAlbumArtURL] and [main]) together with the properties the
    specification states about them.

    The repository holds two revisions of the program: [main.go] and a
    commented copy of it.  They differ in the guard of the automatic lyrics
    branch and in a few message texts; the embedding takes the revision as a
    parameter ([revision]) and everything else is shared.

    The outside world (the file system, the two HTTP services, the JSON
    decoder, the ID3 parser) is a record of functions, [World]; every call
    that touches it is recorded in a trace of [event]s. *)

From Stdlib Require Import ZArith NArith Ascii String List Bool Lia.
From stdpp Require Import base option list strings gmap sorting.

Local Open Scope Z_scope.

(* ================================================================== *)
(** * Go library functions used by the program *)
(* ================================================================== *)

Module Go.

(** The characters [url.QueryEscape] leaves alone: letters, digits and
    [-], [_], [.], [~]. *)
Definition unreserved (c : ascii) : bool :=
  let n := N_of_ascii c in
  ((97 <=? n) && (n <=? 122) || (65 <=? n) && (n <=? 90) ||
   (48 <=? n) && (n <=? 57) ||
   (n =? 45) || (n =? 95) || (n =? 46) || (n =? 126))%N.

Definition upperhex (n : N) : ascii :=
  match String.get (N.to_nat n) "0123456789ABCDEF" with
  | Some c => c
  | None => "0"%char
  end.

(** [url.QueryEscape]: a space becomes [+], an unreserved byte stays, any
    other byte becomes [%XX]. *)
Fixpoint QueryEscape (s : string) : string :=
  match s with
  | EmptyString => EmptyString
  | String c s' =>
      if Ascii.eqb c " "%char then String "+"%char (QueryEscape s')
      else if unreserved c then String c (QueryEscape s')
      else
        let n := N_of_ascii c in
        String "%"%char
          (String (upperhex (n / 16)%N)
             (String (upperhex (n mod 16)%N) (QueryEscape s')))
  end.

(** [s[from:]] *)
Definition slice_from (from : nat) (s : string) : string :=
  String.substring from (String.length s - from) s.

(** [strings.Replace(s, old, new, n)] for [n >= 0] and a non-empty [old]:
    the first [n] occurrences of [old], found from left to right by
    [strings.Index], are replaced by [new]. *)
Fixpoint Replace_from (n : nat) (s old new : string) : string :=
  match n with
  | O => s
  | S n' =>
      match String.index 0 old s with
      | None => s
      | Some j =>
          String.substring 0 j s +:+ new +:+
          Replace_from n' (slice_from (j + String.length old) s) old new
      end
  end.

Definition Replace (s old new : string) (n : nat) : string :=
  if String.eqb old new then s else Replace_from n s old new.

(** The line feed that [fmt.Println] and [\n] in a format write. *)
Definition nl : string := String (ascii_of_nat 10) EmptyString.

(** [fmt.Println(a, b)] writes its operands separated by a space and ends
    the line. *)
Definition Sprintln (ws : list string) : string :=
  String.concat " " ws +:+ nl.

End Go.

(* ================================================================== *)
(** * The ID3v2 tag library (github.com/bogem/id3v2), as the program uses it *)
(* ================================================================== *)

Module id3v2.

Inductive Encoding := EncodingISO | EncodingUTF16 | EncodingUTF16BE | EncodingUTF8.

Record TextFrame := {
  tf_Encoding : Encoding;
  tf_Text : string;
}.

Record CommentFrame := {
  cf_Encoding : Encoding;
  cf_Language : string;
  cf_Description : string;
  cf_Text : string;
}.

Record PictureFrame := {
  pf_Encoding : Encoding;
  pf_MimeType : string;
  pf_PictureType : N;
  pf_Description : string;
  pf_Picture : string;
}.

Record UnsynchronisedLyricsFrame := {
  ulf_Encoding : Encoding;
  ulf_Language : string;
  ulf_ContentDescriptor : string;
  ulf_Lyrics : string;
}.

(** The values behind the library's [Framer] interface.  [FOther]
    stands for every frame type the program does not name (unknown frames,
    user-defined text frames, ...); it carries the name of its Go type. *)
Inductive Framer :=
| FText (f : TextFrame)
| FComment (f : CommentFrame)
| FPicture (f : PictureFrame)
| FLyrics (f : UnsynchronisedLyricsFrame)
| FOther (typeName : string) (body : string).

Definition PTFrontCover : N := 3.

(** [f.UniqueIdentifier()]: what tells two frames under one ID apart. *)
Definition UniqueIdentifier (f : Framer) : string :=
  match f with
  | FText _ => "ID"
  | FComment c => cf_Language c +:+ cf_Description c
  | FPicture p =>
      String (Go.upperhex (pf_PictureType p / 16)%N)
        (String (Go.upperhex (pf_PictureType p mod 16)%N) (pf_Description p))
  | FLyrics l => ulf_Language l +:+ ulf_ContentDescriptor l
  | FOther _ body => body
  end.

(** The tag: its frames by frame ID, in the order of the file, and the
    encoding that the library's own text setters use. *)
Record Tag := {
  frames : gmap string (list Framer);
  defaultEncoding : Encoding;
}.

(** [tag.CommonID(description)]: the frame ID of a description.  The IDs of
    the five descriptions below are the same in ID3v2.3 and ID3v2.4. *)
Definition CommonID (description : string) : string :=
  if String.eqb description "Artist" then "TPE1"
  else if String.eqb description "Title" then "TIT2"
  else if String.eqb description "Comments" then "COMM"
  else if String.eqb description "Attached picture" then "APIC"
  else if String.eqb description "Unsynchronised lyrics/text transcription" then "USLT"
  else description.

Definition GetFrames (id : string) (tag : Tag) : list Framer :=
  default [] (frames tag !! id).

Definition AllFrames (tag : Tag) : gmap string (list Framer) := frames tag.

Definition DeleteFrames (id : string) (tag : Tag) : Tag :=
  {| frames := delete id (frames tag); defaultEncoding := defaultEncoding tag |}.

Definition SetDefaultEncoding (enc : Encoding) (tag : Tag) : Tag :=
  {| frames := frames tag; defaultEncoding := enc |}.

(** Adding to a sequence: a frame with the same unique identifier is
    replaced in place, otherwise the new frame goes last. *)
Fixpoint sequence_AddFrame (f : Framer) (fs : list Framer) : list Framer :=
  match fs with
  | [] => [f]
  | g :: fs' =>
      if String.eqb (UniqueIdentifier f) (UniqueIdentifier g) then f :: fs'
      else g :: sequence_AddFrame f fs'
  end.

(** [tag.AddFrame(id, f)] for the IDs that hold sequences of frames (COMM,
    APIC and USLT are such IDs). *)
Definition AddFrame (id : string) (f : Framer) (tag : Tag) : Tag :=
  {| frames := <[id := sequence_AddFrame f (GetFrames id tag)]> (frames tag);
     defaultEncoding := defaultEncoding tag |}.

Definition AddCommentFrame (cf : CommentFrame) (tag : Tag) : Tag :=
  AddFrame (CommonID "Comments") (FComment cf) tag.

Definition AddAttachedPicture (pf : PictureFrame) (tag : Tag) : Tag :=
  AddFrame (CommonID "Attached picture") (FPicture pf) tag.

Definition AddUnsynchronisedLyricsFrame (uslf : UnsynchronisedLyricsFrame) (tag : Tag) : Tag :=
  AddFrame (CommonID "Unsynchronised lyrics/text transcription") (FLyrics uslf) tag.

(** [tag.GetTextFrame(id).Text]: the text of the last frame under [id], the
    empty string when there is none.  [None] is the failed type assertion
    of the library when that frame is not a text frame. *)
Definition GetTextFrame_Text (id : string) (tag : Tag) : option string :=
  match last (GetFrames id tag) with
  | None => Some ""
  | Some (FText t) => Some (tf_Text t)
  | Some _ => None
  end.

Definition Artist (tag : Tag) : option string := GetTextFrame_Text (CommonID "Artist") tag.
Definition Title (tag : Tag) : option string := GetTextFrame_Text (CommonID "Title") tag.

(** [reflect.TypeOf(v).Name()] *)
Definition TypeName (f : Framer) : string :=
  match f with
  | FText _ => "TextFrame"
  | FComment _ => "CommentFrame"
  | FPicture _ => "PictureFrame"
  | FLyrics _ => "UnsynchronisedLyricsFrame"
  | FOther n _ => n
  end.

End id3v2.

Import id3v2.

(* ================================================================== *)
(** * Errors, the outside world, and the trace of a run *)
(* ================================================================== *)

(** Go's [error] values, by where they come from. *)
Inductive error :=
| NetworkError (msg : string)   (* http.Get, or reading a response body *)
| DecodeError (msg : string)    (* the JSON decoder *)
| FileError (msg : string)      (* id3v2.Open, os.ReadFile, tag.Save *)
| Errorf (msg : string).        (* fmt.Errorf in this program *)

(** [err.Error()] *)
Definition Error (e : error) : string :=
  match e with
  | NetworkError m | DecodeError m | FileError m | Errorf m => m
  end.

(** A response body is a stream: reading it to the end gives its bytes, or
    fails on the way. *)
Inductive Body := Bytes (b : string) | Broken (msg : string).

Record Response := {
  resp_Body : Body;
  resp_Header : string -> string;     (* resp.Header.Get *)
}.

Record lrclibResult := {
  ID : Z;
  Name : string;
  TrackName : string;
  ArtistName : string;
  AlbumName : string;
  Duration : Z;            (* a float64, as its 64 bits; never read *)
  Instrumental : bool;
  PlainLyrics : string;
  SyncedLyrics : string;
}.

Record itunesEntry := { ArtworkURL100 : string }.
Record itunesResult := { Results : list itunesEntry }.

(** What the program cannot decide by itself.  A failure is the text of the
    error; the embedding tags it with its origin.  The last four fields are
    pure library functions that are not spelled out here. *)
Record World := {
  w_Open : string -> string + Tag;            (* id3v2.Open(name, Options{Parse: true}) *)
  w_Get : string -> string + Response;        (* http.Get(url) *)
  w_ReadFile : string -> string + string;     (* os.ReadFile(name) *)
  w_Save : Tag -> option string;              (* tag.Save() *)
  w_DecodeLrclib : string -> string + list lrclibResult;  (* JSON into []lrclibResult *)
  w_DecodeItunes : string -> string + itunesResult;       (* JSON into itunesResult *)
  w_DetectContentType : string -> string;     (* http.DetectContentType *)
  w_Sprint : Framer -> string;                (* fmt.Sprint of a frame *)
}.

Inductive event :=
| EvUsage                                (* flag.Usage() *)
| EvOpen (name : string)                 (* id3v2.Open *)
| EvGet (url : string)                   (* http.Get *)
| EvReadFile (name : string)             (* os.ReadFile *)
| EvStdout (text : string)               (* fmt.Println, fmt.Printf *)
| EvFatal (prefix : string) (err : error) (* log.Fatalf(prefix + "%v", err), log.Fatal(err) *)
| EvSave (tag : Tag)                     (* tag.Save() *)
| EvClose.                               (* the deferred tag.Close() *)

(** How a computation stops early: [os.Exit], or a panic. *)
Inductive halt := Exit (status : Z) | Panic (msg : string).

(** A computation: the events it caused, then its value or why it stopped. *)
Definition M (A : Type) : Type := list event * (halt + A).

Definition ret {A} (a : A) : M A := ([], inr a).

Definition bind {A B} (m : M A) (f : A -> M B) : M B :=
  match m with
  | (t, inl h) => (t, inl h)
  | (t, inr a) => let '(t', r) := f a in (t ++ t', r)
  end.

Declare Scope go_scope.
Delimit Scope go_scope with go.
Notation "x <- m ;; k" := (bind m (fun x => k))
  (at level 20, m at level 99, k at level 200, only parsing) : go_scope.
Notation "m ;;; k" := (bind m (fun _ => k))
  (at level 100, k at level 200, only parsing, right associativity) : go_scope.
Local Open Scope go_scope.

Definition emit (e : event) : M unit := ([e], inr tt).
Definition os_Exit {A} (status : Z) : M A := ([], inl (Exit status)).
Definition panic {A} (msg : string) : M A := ([], inl (Panic msg)).

(** [log.Fatalf(format, err)] with [format = prefix ++ "%v"], and
    [log.Fatal(err)] with an empty prefix: write the line
    [prefix ++ err.Error()] to the log, then [os.Exit(1)]. *)
Definition log_Fatalf {A} (prefix : string) (err : error) : M A :=
  emit (EvFatal prefix err) ;;; os_Exit 1.

(** [defer f()] inside [main]: the deferred call runs when [body] returns or
    panics, and does not run when the process exits through [os.Exit]. *)
Definition defer {A} (deferred : list event) (body : M A) : M A :=
  match body with
  | (t, inl (Exit status)) => (t, inl (Exit status))
  | (t, r) => (t ++ deferred, r)
  end.

Fixpoint for_each {A} (l : list A) (body : A -> M unit) : M unit :=
  match l with
  | [] => ret tt
  | x :: l' => body x ;;; for_each l' body
  end.

(** Reading a body to the end ([io.ReadAll]), and decoding it as JSON
    ([json.NewDecoder(body).Decode]). *)
Definition io_ReadAll (b : Body) : error + string :=
  match b with
  | Bytes s => inr s
  | Broken m => inl (NetworkError m)
  end.

Definition json_Decode {A} (dec : string -> string + A) (b : Body) : error + A :=
  match b with
  | Bytes s => match dec s with inl m => inl (DecodeError m) | inr a => inr a end
  | Broken m => inl (NetworkError m)
  end.

(* ================================================================== *)
(** * The program *)
(* ================================================================== *)

(** The two revisions of the program in the repository. *)
Inductive revision :=
| Upstream     (* main.go *)
| Commented.   (* the commented copy of main.go *)

(** The command line after [flag.Parse()]. *)
Record CommandLine := {
  embedImage : string;      (* -image, default "" *)
  embedLyrics : string;     (* -lyrics, default "" *)
  embedLang : string;       (* -lang, default "jpn" *)
  dryRun : bool;            (* -dryrun, default false *)
  args : list string;       (* the positional arguments *)
}.

(** [flag.Arg(i)]: the i-th positional argument, or "" when there is none. *)
Definition flag_Arg (cl : CommandLine) (i : nat) : string := nth i (args cl) "".

Section Program.

Context (w : World) (rev : revision).

(** A message whose wording differs between the two revisions. *)
Definition text (upstream commented : string) : string :=
  match rev with
  | Upstream => upstream
  | Commented => commented
  end.

(** ** Calls into the outside world *)

Definition id3v2_Open (name : string) : M (error + Tag) :=
  emit (EvOpen name) ;;;
  ret (match w_Open w name with
       | inl m => inl (FileError m)
       | inr tag => inr tag
       end).

Definition http_Get (url : string) : M (error + Response) :=
  emit (EvGet url) ;;;
  ret (match w_Get w url with
       | inl m => inl (NetworkError m)
       | inr resp => inr resp
       end).

Definition os_ReadFile (name : string) : M (error + string) :=
  emit (EvReadFile name) ;;;
  ret (match w_ReadFile w name with
       | inl m => inl (FileError m)
       | inr b => inr b
       end).

Definition tag_Save (tag : Tag) : M (option error) :=
  emit (EvSave tag) ;;;
  ret (match w_Save w tag with
       | Some m => Some (FileError m)
       | None => None
       end).

(** [tag.Artist()] and [tag.Title()]; the library panics when the frame
    under the ID is not a text frame. *)
Definition tag_Artist (tag : Tag) : M string :=
  match Artist tag with
  | Some s => ret s
  | None => panic "interface conversion: not a TextFrame"
  end.

Definition tag_Title (tag : Tag) : M string :=
  match Title tag with
  | Some s => ret s
  | None => panic "interface conversion: not a TextFrame"
  end.

(** ** [downloadLrc] *)

(** The loop over the decoded records: the synced lyrics of the first record
    with [r.ArtistName == artist && r.TrackName == title]. *)
Fixpoint firstMatch (artist title : string) (results : list lrclibResult) : option string :=
  match results with
  | [] => None
  | r :: rest =>
      if String.eqb (ArtistName r) artist && String.eqb (TrackName r) title
      then Some (SyncedLyrics r)
      else firstMatch artist title rest
  end.

(** [fmt.Errorf("Lyrics not found for %s - %s", artist, title)] *)
Definition lyricsNotFound (artist title : string) : error :=
  Errorf (text "Lyrics not found for " "lyrics not found for "
          +:+ artist +:+ " - " +:+ title).

Definition lrclibUrl (artist title : string) : string :=
  "https://lrclib.net/api/search?q=" +:+ Go.QueryEscape (artist +:+ " " +:+ title).

Definition downloadLrc (artist title : string) : M (error + string) :=
  r <- http_Get (lrclibUrl artist title) ;;
  match r with
  | inl err => ret (inl err)
  | inr resp =>
      match json_Decode (w_DecodeLrclib w) (resp_Body resp) with
      | inl err => ret (inl err)
      | inr results =>
          match firstMatch artist title results with
          | Some lyrics => ret (inr lyrics)
          | None => ret (inl (lyricsNotFound artist title))
          end
      end
  end.

(** ** [coverArtUrl] and [fetchAlbumArtURL] *)

Definition coverArtUrl (artist title : string) : string :=
  "https://itunes.apple.com/search?term=" +:+
  Go.QueryEscape (artist +:+ " " +:+ title) +:+ "&media=music&limit=1".

Definition albumArtNotFound : error :=
  Errorf (text "Album art not found" "album art not found").

(** The URL of the second request. *)
Definition artworkUrl600 (e : itunesEntry) : string :=
  Go.Replace (ArtworkURL100 e) "100x100" "600x600" 1.

Definition fetchAlbumArtURL (u : string) : M (error + string * string) :=
  r <- http_Get u ;;
  match r with
  | inl err => ret (inl err)
  | inr resp =>
      match json_Decode (w_DecodeItunes w) (resp_Body resp) with
      | inl err => ret (inl err)
      | inr result =>
          match Results result with
          | [] => ret (inl albumArtNotFound)
          | first :: _ =>
              r <- http_Get (artworkUrl600 first) ;;
              match r with
              | inl err => ret (inl err)
              | inr resp =>
                  match io_ReadAll (resp_Body resp) with
                  | inl err => ret (inl err)
                  | inr b => ret (inr (b, resp_Header resp "content-type"))
                  end
              end
          end
      end
  end.

(** ** [main], step by step *)

(** The line printed for one frame in a dry run. *)
Definition frameSummary (v : Framer) : string :=
  let s := match v with
           | FText t => tf_Text t
           | FComment t => cf_Text t
           | FPicture t => pf_Description t
           | _ => w_Sprint w v
           end in
  let s := if (70 <? String.length s)%nat
           then String.substring 0 70 s +:+ "..." else s in
  s +:+ " [" +:+ TypeName v +:+ "]".

(** The dry-run listing: every frame, by sorted frame ID. *)
Definition listFrames (tag : Tag) : M unit :=
  let frames := AllFrames tag in
  let ks := merge_sort String.le (map fst (map_to_list frames)) in
  for_each ks (fun k =>
    for_each (default [] (frames !! k)) (fun v =>
      emit (EvStdout (k +:+ ": " +:+ frameSummary v +:+ Go.nl)))).

(** The comment fix: the first comment frame is rebuilt with the ISO
    encoding and the language of the command line, and takes the place of
    all comment frames.  [None] is the panic of the type assertion
    [comments[0].(id3v2.CommentFrame)]. *)
Definition fixComments (lang : string) (tag : Tag) : option Tag :=
  let comments := GetFrames (CommonID "Comments") tag in
  match comments with
  | [] => Some tag
  | FComment c0 :: _ =>
      let comment := {| cf_Encoding := EncodingISO;
                        cf_Language := lang;
                        cf_Description := cf_Description c0;
                        cf_Text := cf_Text c0 |} in
      Some (AddCommentFrame comment (DeleteFrames (CommonID "Comments") tag))
  | _ :: _ => None
  end.

Definition commentsStep (cl : CommandLine) (tag : Tag) : M Tag :=
  match fixComments (embedLang cl) tag with
  | Some tag' => ret tag'
  | None => panic "interface conversion: not a CommentFrame"
  end.

Definition coverPicture (ct b : string) : PictureFrame :=
  {| pf_Encoding := EncodingISO;
     pf_MimeType := ct;
     pf_PictureType := PTFrontCover;
     pf_Description := "Cover Art";
     pf_Picture := b |}.

Definition setPicture (pic : PictureFrame) (tag : Tag) : Tag :=
  AddAttachedPicture pic (DeleteFrames (CommonID "Attached picture") tag).

Definition imageStep (cl : CommandLine) (tag : Tag) : M Tag :=
  if negb (String.eqb (embedImage cl) "") then
    if String.eqb (embedImage cl) "auto" then
      artist <- tag_Artist tag ;;
      title <- tag_Title tag ;;
      let u := coverArtUrl artist title in
      if dryRun cl then
        emit (EvStdout (Go.Sprintln [])) ;;;
        emit (EvStdout (Go.Sprintln [text "Covert art:" "Cover art URL:"; u])) ;;;
        ret tag
      else
        r <- fetchAlbumArtURL u ;;
        match r with
        | inl err =>
            log_Fatalf (text "Error fetch album art image: "
                             "Error fetching album art image: ") err
        | inr (b, ct) => ret (setPicture (coverPicture ct b) tag)
        end
    else
      if dryRun cl then
        emit (EvStdout (Go.Sprintln [])) ;;;
        emit (EvStdout (Go.Sprintln [text "Covert art:" "Cover art from file:";
                                     embedImage cl])) ;;;
        ret tag
      else
        r <- os_ReadFile (embedImage cl) ;;
        match r with
        | inl err =>
            log_Fatalf (text "Error read album art image: "
                             "Error reading album art image: ") err
        | inr b => ret (setPicture (coverPicture (w_DetectContentType w b) b) tag)
        end
  else ret tag.

(** The guard of the automatic lyrics branch.  [main.go] tests the image
    flag; the commented copy tests the lyrics flag. *)
Definition lyricsAuto (cl : CommandLine) : bool :=
  match rev with
  | Upstream => String.eqb (embedImage cl) "auto"
  | Commented => String.eqb (embedLyrics cl) "auto"
  end.

Definition lyricsFrame (lang lyrics : string) : UnsynchronisedLyricsFrame :=
  {| ulf_Encoding := EncodingUTF8;
     ulf_Language := lang;
     ulf_ContentDescriptor := "Lyrics";
     ulf_Lyrics := lyrics |}.

Definition setLyrics (uslt : UnsynchronisedLyricsFrame) (tag : Tag) : Tag :=
  AddUnsynchronisedLyricsFrame uslt
    (DeleteFrames (CommonID "Unsynchronised lyrics/text transcription") tag).

Definition lyricsStep (cl : CommandLine) (tag : Tag) : M Tag :=
  if negb (String.eqb (embedLyrics cl) "") then
    if lyricsAuto cl then
      artist <- tag_Artist tag ;;
      title <- tag_Title tag ;;
      r <- downloadLrc artist title ;;
      match r with
      | inl err => log_Fatalf "" err
      | inr lyrics =>
          if dryRun cl then
            emit (EvStdout (Go.Sprintln [])) ;;;
            emit (EvStdout (Go.Sprintln [lyrics])) ;;;
            ret tag
          else
            ret (setLyrics (lyricsFrame (embedLang cl) lyrics) tag)
      end
    else
      if dryRun cl then
        emit (EvStdout (Go.Sprintln [])) ;;;
        emit (EvStdout (Go.Sprintln [text "Lyrics text:" "Lyrics text from file:";
                                     embedLyrics cl])) ;;;
        ret tag
      else
        r <- os_ReadFile (embedLyrics cl) ;;
        match r with
        | inl err =>
            log_Fatalf (text "Error read lyrics file: "
                             "Error reading lyrics file: ") err
        | inr b => ret (setLyrics (lyricsFrame (embedLang cl) b) tag)
        end
  else ret tag.

Definition saveStep (cl : CommandLine) (mp3File : string) (tag : Tag) : M unit :=
  if negb (dryRun cl) then
    err <- tag_Save tag ;;
    match err with
    | Some e => log_Fatalf "Error saving MP3 file: " e
    | None =>
        emit (EvStdout (Go.Sprintln [text "Image embedded successfully in"
                                          "Embedded successfully in"; mp3File]))
    end
  else ret tt.

(** The changes to the tag in memory, after the dry-run listing. *)
Definition mutate (cl : CommandLine) (tag : Tag) : M Tag :=
  (if dryRun cl then listFrames tag else ret tt) ;;;
  let tag := SetDefaultEncoding EncodingUTF16 tag in
  tag <- commentsStep cl tag ;;
  tag <- imageStep cl tag ;;
  lyricsStep cl tag.

Definition main (cl : CommandLine) : M unit :=
  let mp3File := flag_Arg cl 0 in
  (if String.eqb mp3File "" then emit EvUsage ;;; os_Exit 1 else ret tt) ;;;
  r <- id3v2_Open mp3File ;;
  match r with
  | inl err => log_Fatalf "Error opening MP3 file: " err
  | inr tag =>
      defer [EvClose]
        (tag <- mutate cl tag ;;
         saveStep cl mp3File tag)
  end.

End Program.

(** ** Reading a run *)

Definition trace {A} (m : M A) : list event := fst m.
Definition result {A} (m : M A) : halt + A := snd m.

(** What a run shows to an observer [p] of single events. *)
Definition observe {A X} (p : event -> option X) (m : M A) : list X :=
  omap p (trace m).

Definition saved_tag (e : event) : option Tag :=
  match e with EvSave tag => Some tag | _ => None end.

Definition requested_url (e : event) : option string :=
  match e with EvGet url => Some url | _ => None end.

Definition read_file (e : event) : option string :=
  match e with EvReadFile name => Some name | _ => None end.

Definition file_io (e : event) : option event :=
  match e with
  | EvOpen _ | EvReadFile _ | EvSave _ | EvClose => Some e
  | _ => None
  end.

(** The tags written by [tag.Save()] in a run, and how many there are. *)
Abbreviation saved m := (observe saved_tag m).
Definition saves {A} (m : M A) : nat := length (saved m).

(** The requests of a run, in order. *)
Abbreviation requests m := (observe requested_url m).

(* ================================================================== *)
(** * Sample worlds *)
(* ================================================================== *)

Module Sample.

Definition comment (enc : Encoding) (lang desc txt : string) : Framer :=
  FComment {| cf_Encoding := enc; cf_Language := lang;
              cf_Description := desc; cf_Text := txt |}.

Definition textFrame (txt : string) : Framer :=
  FText {| tf_Encoding := EncodingUTF8; tf_Text := txt |}.

(** A tag with an artist, a title and two comment frames. *)
Definition tag : Tag :=
  {| frames :=
       <["TPE1" := [textFrame "A"]]>
       (<["TIT2" := [textFrame "T"]]>
       (<["COMM" := [comment EncodingUTF16 "eng" "note" "first";
                     comment EncodingUTF8 "deu" "zweite" "second"]]> ∅));
     defaultEncoding := EncodingUTF8 |}.

Definition record (artist title synced : string) : lrclibResult :=
  {| ID := 1; Name := title; TrackName := title; ArtistName := artist;
     AlbumName := ""; Duration := 0; Instrumental := false;
     PlainLyrics := ""; SyncedLyrics := synced |}.

Definition header (ct : string) (key : string) : string :=
  if String.eqb key "content-type" then ct else "".

(** The JSON documents of the sample services are named, not parsed. *)
Definition decodeLrclib (doc : string) : string + list lrclibResult :=
  if String.eqb doc "lyrics.json"
  then inr [record "a" "T" "L0"; record "A" "T" "L1"; record "A" "T" "L2"]
  else inl "invalid character".

Definition decodeItunes (doc : string) : string + itunesResult :=
  if String.eqb doc "itunes.json"
  then inr {| Results := [ {| ArtworkURL100 := "https://img/100x100/a100x100bb.jpg" |} ] |}
  else inl "invalid character".

(** Every file but the MP3 file is missing, every request fails. *)
Definition offline : World :=
  {| w_Open := fun name =>
       if String.eqb name "song.mp3" then inr tag else inl "no such file";
     w_Get := fun _ => inl "dial tcp: network is unreachable";
     w_ReadFile := fun name =>
       if String.eqb name "auto" then inr "local lyrics"
       else if String.eqb name "lyrics.lrc" then inr "la la"
       else inl "no such file";
     w_Save := fun _ => None;
     w_DecodeLrclib := decodeLrclib;
     w_DecodeItunes := decodeItunes;
     w_DetectContentType := fun _ => "application/octet-stream";
     w_Sprint := fun _ => "{...}" |}.

(** Both services answer. *)
Definition online : World :=
  {| w_Open := w_Open offline;
     w_Get := fun url =>
       if String.prefix "https://lrclib.net/api/search?q=" url
       then inr {| resp_Body := Bytes "lyrics.json"; resp_Header := header "application/json" |}
       else if String.eqb url "https://itunes.apple.com/search?term=A+T&media=music&limit=1"
       then inr {| resp_Body := Bytes "itunes.json"; resp_Header := header "text/javascript" |}
       else if String.eqb url "https://img/600x600/a100x100bb.jpg"
       then inr {| resp_Body := Bytes "JPEG"; resp_Header := header "image/jpeg" |}
       else inl "404";
     w_ReadFile := w_ReadFile offline;
     w_Save := w_Save offline;
     w_DecodeLrclib := decodeLrclib;
     w_DecodeItunes := decodeItunes;
     w_DetectContentType := w_DetectContentType offline;
     w_Sprint := w_Sprint offline |}.

Definition cmd (image lyrics : string) (dry : bool) (positional : list string) : CommandLine :=
  {| embedImage := image; embedLyrics := lyrics; embedLang := "jpn";
     dryRun := dry; args := positional |}.

End Sample.

(* ================================================================== *)
(** * Vocabulary of the statements *)
(* ================================================================== *)

(** A record answers a query when both names are the queried strings, byte
    for byte. *)
Definition matches (artist title : string) (r : lrclibResult) : Prop :=
  ArtistName r = artist /\ TrackName r = title.

(** The errors the program makes itself with [fmt.Errorf]; both say that
    nothing was found. *)
Definition is_NotFound (e : error) : bool :=
  match e with
  | Errorf _ => true
  | _ => false
  end.

(** The three ways a lyrics lookup goes wrong. *)
Inductive lookup_failure (w : World) (artist title : string) : Prop :=
| request_fails (m : string) :
    w_Get w (lrclibUrl artist title) = inl m ->
    lookup_failure w artist title
| decoding_fails (resp : Response) (e : error) :
    w_Get w (lrclibUrl artist title) = inr resp ->
    json_Decode (w_DecodeLrclib w) (resp_Body resp) = inl e ->
    lookup_failure w artist title
| nothing_matches (resp : Response) (results : list lrclibResult) :
    w_Get w (lrclibUrl artist title) = inr resp ->
    json_Decode (w_DecodeLrclib w) (resp_Body resp) = inr results ->
    Forall (fun q => ~ matches artist title q) results ->
    lookup_failure w artist title.

(** The reading of the lyrics lookup in which every failure is a not-found
    error. *)
Definition every_failure_is_NotFound (w : World) (rev : revision) (artist title : string) : Prop :=
  lookup_failure w artist title ->
  exists e, result (downloadLrc w rev artist title) = inr (inl e) /\ is_NotFound e = true.

(** [tok] stands in [s] at byte offset [p]. *)
Definition occurs_at (p : nat) (tok s : string) : Prop :=
  String.substring p (String.length tok) s = tok.

(** The comment frame that the comment fix builds from a frame [c0]. *)
Definition fixedComment (lang : string) (c0 : CommentFrame) : CommentFrame :=
  {| cf_Encoding := EncodingISO;
     cf_Language := lang;
     cf_Description := cf_Description c0;
     cf_Text := cf_Text c0 |}.

(** The reading of the comment fix in which the first comment frame keeps
    its description, its text and its language. *)
Definition fix_keeps_language (lang : string) (tag : Tag) : Prop :=
  forall c0 rest,
    GetFrames (CommonID "Comments") tag = FComment c0 :: rest ->
    exists tag' c,
      fixComments lang tag = Some tag' /\
      head (GetFrames (CommonID "Comments") tag') = Some (FComment c) /\
      cf_Description c = cf_Description c0 /\
      cf_Text c = cf_Text c0 /\
      cf_Language c = cf_Language c0.

(** What the parser of the library guarantees about the frames the program
    reads with a type assertion: comments under COMM, text under TPE1 and
    TIT2. *)
Definition well_typed (tag : Tag) : Prop :=
  Forall (fun f => exists c, f = FComment c) (GetFrames (CommonID "Comments") tag) /\
  Forall (fun f => exists t, f = FText t) (GetFrames (CommonID "Artist") tag) /\
  Forall (fun f => exists t, f = FText t) (GetFrames (CommonID "Title") tag).

(** The run ends in [log.Fatal] or [log.Fatalf] with the error [err]: the
    fatal message is its last event, and the exit status is 1. *)
Definition dies_with {A} (err : error) (m : M A) : Prop :=
  exists t prefix, m = (t ++ [EvFatal prefix err], inl (Exit 1)).

(** No request gets through. *)
Definition network_down (w : World) : Prop :=
  forall url, exists m, w_Get w url = inl m.

(** The reading of the automatic sources in which a dead network always ends
    the run with a network error. *)
Definition network_failure_is_fatal (w : World) (rev : revision) (cl : CommandLine) : Prop :=
  embedImage cl = "auto" \/ embedLyrics cl = "auto" ->
  network_down w ->
  (exists m, dies_with (NetworkError m) (main w rev cl)) /\
  saves (main w rev cl) = 0%nat.

(** The bytes an escaped query term is made of: the unreserved ones, and the
    [+] and [%] that the escaping writes. *)
Definition url_safe (c : ascii) : bool :=
  Go.unreserved c || Ascii.eqb c "+" || Ascii.eqb c "%".

(** The line that the dry-run listing prints for the frame [v] under the
    frame ID [k]. *)
Definition listingLine (w : World) (k : string) (v : Framer) : string :=
  k +:+ ": " +:+ frameSummary w v +:+ Go.nl.

(** The events that frame a run: usage, opening and closing the file. *)
Definition framing (e : event) : option event :=
  match e with
  | EvUsage | EvOpen _ | EvClose => Some e
  | _ => None
  end.

(** A search service whose one result has an artwork URL without the
    "100x100" token; every request is answered. *)
Definition plain_artwork : World :=
  {| w_Open := w_Open Sample.offline;
     w_Get := fun _ =>
       inr {| resp_Body := Bytes "itunes.json"; resp_Header := Sample.header "image/png" |};
     w_ReadFile := w_ReadFile Sample.offline;
     w_Save := w_Save Sample.offline;
     w_DecodeLrclib := Sample.decodeLrclib;
     w_DecodeItunes := fun _ => inr {| Results := [ {| ArtworkURL100 := "http://i/a.jpg" |} ] |};
     w_DetectContentType := w_DetectContentType Sample.offline;
     w_Sprint := w_Sprint Sample.offline |}.

(* ================================================================== *)
(** * Laws of the trace monad *)
(* ================================================================== *)

Section Monad_laws.

Context {A B : Type}.
Implicit Types (m : M A) (f : A -> M B).

Lemma trace_bind m f :
  trace (bind m f) =
  trace m ++ match result m with inr a => trace (f a) | inl _ => [] end.
Proof.
  destruct m as [t [h | a]]; simpl.
  - by rewrite app_nil_r.
  - by destruct (f a).
Qed.

Lemma result_bind m f :
  result (bind m f) =
  match result m with inr a => result (f a) | inl h => inl h end.
Proof. destruct m as [t [h | a]]; simpl; [done | by destruct (f a)]. Qed.

Lemma bind_ret_l (a : A) f : bind (ret a) f = f a.
Proof. unfold bind, ret. by destruct (f a). Qed.

Lemma bind_halts m f h : result m = inl h -> bind m f = (trace m, inl h).
Proof. destruct m as [t [h' | a]]; simpl; congruence. Qed.

Lemma bind_returns m f a :
  result m = inr a -> bind m f = (trace m ++ trace (f a), result (f a)).
Proof.
  destruct m as [t [h' | a']]; simpl; [congruence |].
  intros [= ->]. by destruct (f a).
Qed.

(** A sequence that returns: both halves returned. *)
Lemma bind_inr_inv m f b :
  result (bind m f) = inr b ->
  exists a, result m = inr a /\ result (f a) = inr b /\
            trace (bind m f) = trace m ++ trace (f a).
Proof.
  rewrite trace_bind, result_bind.
  destruct (result m) as [h | a]; [done |]. eauto.
Qed.

End Monad_laws.

Section Observing.

Context {X : Type} (p : event -> option X).

Lemma observe_bind {A B} (m : M A) (f : A -> M B) :
  observe p (bind m f) =
  observe p m ++ match result m with inr a => observe p (f a) | inl _ => [] end.
Proof.
  unfold observe. rewrite trace_bind, omap_app.
  by destruct (result m).
Qed.

Lemma observe_ret {A} (a : A) : observe p (ret a) = [].
Proof. done. Qed.

Lemma observe_emit (e : event) : observe p (emit e) = option_list (p e).
Proof. unfold observe; simpl. by destruct (p e). Qed.

Lemma observe_defer {A} (d : list event) (m : M A) :
  omap p d = [] -> observe p (defer d m) = observe p m.
Proof.
  intros Hd. unfold observe.
  destruct m as [t [[s | msg] | a]]; simpl; [done | |];
    by rewrite omap_app, Hd, app_nil_r.
Qed.

Lemma observe_for_each {A} (l : list A) (body : A -> M unit) :
  (forall x, observe p (body x) = []) -> observe p (for_each l body) = [].
Proof.
  intros Hbody. induction l as [| x l IH]; [done |].
  simpl. rewrite observe_bind, Hbody. by destruct (result (body x)).
Qed.

End Observing.

Lemma defer_result {A} (d : list event) (m : M A) : result (defer d m) = result m.
Proof. by destruct m as [t [[s | msg] | a]]. Qed.

(* ================================================================== *)
(** * The missing file argument *)
(* ================================================================== *)



(* ================================================================== *)
(** * The lyrics lookup *)
(* ================================================================== *)

Section Lyrics_lookup.

Context (artist title : string).

Lemma matches_eqb (r : lrclibResult) :
  String.eqb (ArtistName r) artist && String.eqb (TrackName r) title = true
  <-> matches artist title r.
Proof.
  unfold matches. rewrite andb_true_iff, !String.eqb_eq. tauto.
Qed.

Lemma firstMatch_hit (r : lrclibResult) (post : list lrclibResult) :
  matches artist title r ->
  firstMatch artist title (r :: post) = Some (SyncedLyrics r).
Proof. intros Hr%matches_eqb. simpl. by rewrite Hr. Qed.

Lemma firstMatch_skip (pre rest : list lrclibResult) :
  Forall (fun q => ~ matches artist title q) pre ->
  firstMatch artist title (pre ++ rest) = firstMatch artist title rest.
Proof.
  induction 1 as [| q pre Hq _ IH]; [done |].
  simpl. destruct (_ && _) eqn:E; [| exact IH].
  by apply matches_eqb in E.
Qed.

Lemma firstMatch_none (results : list lrclibResult) :
  Forall (fun q => ~ matches artist title q) results ->
  firstMatch artist title results = None.
Proof.
  intros H. rewrite <- (app_nil_r results). by rewrite firstMatch_skip.
Qed.

Context (w : World) (rev : revision).

(** What [downloadLrc] returns, by the answer of the service. *)
Lemma downloadLrc_unfold :
  downloadLrc w rev artist title =
  ([EvGet (lrclibUrl artist title)],
   inr match w_Get w (lrclibUrl artist title) with
       | inl m => inl (NetworkError m)
       | inr resp =>
           match json_Decode (w_DecodeLrclib w) (resp_Body resp) with
           | inl err => inl err
           | inr results =>
               match firstMatch artist title results with
               | Some lyrics => inr lyrics
               | None => inl (lyricsNotFound rev artist title)
               end
           end
       end).
Proof.
  unfold downloadLrc, http_Get. simpl.
  destruct (w_Get w _) as [m | resp]; [done |]. simpl.
  destruct (json_Decode _ _) as [err | results]; [done |].
  by destruct (firstMatch _ _ _).
Qed.

Lemma json_Decode_error {T} (dec : string -> string + T) (b : Body) (e : error) :
  json_Decode dec b = inl e -> is_NotFound e = false.
Proof.
  destruct b as [doc | m]; simpl.
  - destruct (dec doc); [| done]. by intros [= <-].
  - by intros [= <-].
Qed.

End Lyrics_lookup.

(** C5.  When the service answers and its answer decodes to a list of
    records, [downloadLrc] returns the synced lyrics of the first record
    whose artist name and track name are exactly the queried strings, and
    the not-found error when no record of the list is such. *)
Theorem C5_first_exact_match (w : World) (rev : revision) (artist title : string)
    (resp : Response) (results : list lrclibResult) :
  w_Get w (lrclibUrl artist title) = inr resp ->
  json_Decode (w_DecodeLrclib w) (resp_Body resp) = inr results ->
  (forall pre r post,
      results = pre ++ r :: post ->
      Forall (fun q => ~ matches artist title q) pre ->
      matches artist title r ->
      result (downloadLrc w rev artist title) = inr (inr (SyncedLyrics r))) /\
  (Forall (fun q => ~ matches artist title q) results ->
   result (downloadLrc w rev artist title) = inr (inl (lyricsNotFound rev artist title))).
Proof.
  intros Hget Hdec. rewrite downloadLrc_unfold, Hget, Hdec. split.
  - intros pre r post -> Hpre Hr.
    by rewrite firstMatch_skip, firstMatch_hit.
  - intros Hnone. by rewrite firstMatch_none.
Qed.

(** The example of the specification: the record ("A", "T", "L1") is found
    for ("A", "T") behind a record that differs in case only, and nothing is
    found for ("A", "T2"). *)
Lemma C5_first_exact_match_witness :
  result (downloadLrc Sample.online Upstream "A" "T") = inr (inr "L1") /\
  result (downloadLrc Sample.online Upstream "A" "T2")
  = inr (inl (Errorf "Lyrics not found for A - T2")).
Proof.
  split; [| reflexivity].
  pose proof (C5_first_exact_match Sample.online Upstream "A" "T"
                {| resp_Body := Bytes "lyrics.json";
                   resp_Header := Sample.header "application/json" |}
                [Sample.record "a" "T" "L0"; Sample.record "A" "T" "L1";
                 Sample.record "A" "T" "L2"]
                eq_refl eq_refl) as [Hfirst _].
  apply (Hfirst [Sample.record "a" "T" "L0"] (Sample.record "A" "T" "L1")
                [Sample.record "A" "T" "L2"] eq_refl).
  - constructor; [| constructor]. unfold matches; simpl. intros [? _]; discriminate.
  - split; reflexivity.
Defined.

(** C7, as the code has it.  Each of the three failures makes [downloadLrc]
    fail, with an error that tells them apart: the error of the request when
    the request fails, the error of the decoder when decoding fails (neither
    is a not-found error), and the not-found error only when no record
    matches. *)
Theorem C7_lookup_failures (w : World) (rev : revision) (artist title : string) :
  (forall m,
      w_Get w (lrclibUrl artist title) = inl m ->
      result (downloadLrc w rev artist title) = inr (inl (NetworkError m))) /\
  (forall resp e,
      w_Get w (lrclibUrl artist title) = inr resp ->
      json_Decode (w_DecodeLrclib w) (resp_Body resp) = inl e ->
      result (downloadLrc w rev artist title) = inr (inl e) /\ is_NotFound e = false) /\
  (forall resp results,
      w_Get w (lrclibUrl artist title) = inr resp ->
      json_Decode (w_DecodeLrclib w) (resp_Body resp) = inr results ->
      Forall (fun q => ~ matches artist title q) results ->
      result (downloadLrc w rev artist title) = inr (inl (lyricsNotFound rev artist title)) /\
      is_NotFound (lyricsNotFound rev artist title) = true).
Proof.
  rewrite downloadLrc_unfold. split; [| split].
  - by intros m ->.
  - intros resp e -> Hdec. rewrite Hdec.
    eauto using json_Decode_error.
  - intros resp results -> -> Hnone.
    by rewrite firstMatch_none.
Qed.

Lemma C7_lookup_failures_witness :
  result (downloadLrc Sample.offline Upstream "A" "T")
  = inr (inl (NetworkError "dial tcp: network is unreachable")).
Proof.
  apply (C7_lookup_failures Sample.offline Upstream "A" "T").
  reflexivity.
Defined.

(** C7 as stated fails: with the network down the lookup returns the error of
    the request, which is not a not-found error. *)
Lemma C7_counterexample :
  ~ every_failure_is_NotFound Sample.offline Upstream "A" "T".
Proof.
  intros Hclaim.
  destruct Hclaim as (e & Hres & Hnf).
  - by apply (request_fails _ _ _ "dial tcp: network is unreachable").
  - vm_compute in Hres. injection Hres as <-. discriminate Hnf.
Qed.

(* ================================================================== *)
(** * The cover-art lookup *)
(* ================================================================== *)

Section String_slices.

Lemma string_length_app (s t : string) :
  String.length (s +:+ t) = (String.length s + String.length t)%nat.
Proof. induction s as [| c s IH]; simpl; [done | by rewrite IH]. Qed.

Lemma substring_all (s : string) : String.substring 0 (String.length s) s = s.
Proof. induction s as [| c s IH]; simpl; [done | by rewrite IH]. Qed.

Lemma substring_length_le (s : string) (n m : nat) :
  (String.length (String.substring n m s) <= m)%nat.
Proof.
  revert n m. induction s as [| c s IH]; intros [| n] [| m]; simpl; try lia.
  - specialize (IH 0%nat m). lia.
  - apply IH.
  - apply IH.
Qed.

Lemma substring_app_head (pre rest : string) :
  String.substring 0 (String.length pre) (pre +:+ rest) = pre.
Proof.
  induction pre as [| c pre IH]; simpl.
  - by destruct rest.
  - by rewrite IH.
Qed.

Lemma substring_app_skip (pre s : string) (n m : nat) :
  String.substring (String.length pre + n) m (pre +:+ s) = String.substring n m s.
Proof. induction pre as [| c pre IH]; simpl; [done | exact IH]. Qed.

Lemma occurs_at_app (pre tok post : string) :
  occurs_at (String.length pre) tok (pre +:+ tok +:+ post).
Proof.
  unfold occurs_at.
  rewrite <- (Nat.add_0_r (String.length pre)), substring_app_skip.
  apply substring_app_head.
Qed.

Lemma slice_from_app (pre tok post : string) :
  Go.slice_from (String.length pre + String.length tok) (pre +:+ tok +:+ post) = post.
Proof.
  unfold Go.slice_from. rewrite !string_length_app.
  replace (String.length pre + (String.length tok + String.length post)
           - (String.length pre + String.length tok))%nat
    with (String.length post) by lia.
  rewrite substring_app_skip.
  rewrite <- (Nat.add_0_r (String.length tok)), substring_app_skip.
  apply substring_all.
Qed.

(** [strings.Index] finds the occurrence that no other one precedes. *)
Lemma index_first (pre tok post : string) :
  tok <> "" ->
  (forall p, (p < String.length pre)%nat -> ~ occurs_at p tok (pre +:+ tok +:+ post)) ->
  String.index 0 tok (pre +:+ tok +:+ post) = Some (String.length pre).
Proof.
  intros Htok Hfirst.
  pose proof (occurs_at_app pre tok post) as Hhere.
  destruct (String.index 0 tok (pre +:+ tok +:+ post)) as [m |] eqn:Hidx.
  - f_equal.
    destruct (Nat.lt_trichotomy m (String.length pre)) as [Hlt | [Heq | Hgt]];
      [| done |].
    + destruct (Hfirst m Hlt). exact (String.index_correct1 _ _ _ _ Hidx).
    + destruct (String.index_correct2 _ _ _ _ Hidx (String.length pre));
        [lia | done | exact Hhere].
  - destruct (String.index_correct3 _ (String.length pre) _ _ Hidx Htok);
      [lia | exact Hhere].
Qed.

(** Replacing once rewrites the first occurrence and nothing else. *)
Lemma Replace_first (pre old new post : string) :
  old <> "" ->
  old <> new ->
  (forall p, (p < String.length pre)%nat -> ~ occurs_at p old (pre +:+ old +:+ post)) ->
  Go.Replace (pre +:+ old +:+ post) old new 1 = pre +:+ new +:+ post.
Proof.
  intros Hold Hne Hfirst. unfold Go.Replace.
  apply String.eqb_neq in Hne as ->. simpl.
  rewrite (index_first pre old post Hold Hfirst).
  by rewrite substring_app_head, slice_from_app.
Qed.

(** A string splits around any place where a token stands. *)
Lemma substring_split (s tok : string) (m : nat) :
  occurs_at m tok s ->
  s = String.substring 0 m s +:+ tok +:+ Go.slice_from (m + String.length tok) s.
Proof.
  unfold occurs_at, Go.slice_from. revert m tok.
  induction s as [| c s IH]; intros m tok Hat.
  - destruct m, (String.length tok); simpl in Hat; subst tok; reflexivity.
  - destruct m as [| m]; simpl.
    + destruct tok as [| d tok]; simpl in *.
      * by rewrite substring_all.
      * injection Hat as -> Hat. f_equal.
        specialize (IH 0%nat tok Hat). simpl in IH.
        replace (String.substring 0 0 s) with "" in IH by by destruct s.
        change (String d s = String d ("" +:+ tok +:+
                  String.substring (String.length tok)
                    (String.length s - String.length tok) s)).
        by f_equal.
    + change (String c s = String c (String.substring 0 m s +:+ tok +:+
                String.substring (m + String.length tok)
                  (String.length s - (m + String.length tok)) s)).
      f_equal. exact (IH m tok Hat).
Qed.

(** A string that contains a token splits at the first place where it
    stands. *)
Lemma first_occurrence (s tok a b : string) :
  tok <> "" ->
  s = a +:+ tok +:+ b ->
  exists pre post,
    s = pre +:+ tok +:+ post /\
    forall p, (p < String.length pre)%nat -> ~ occurs_at p tok s.
Proof.
  intros Htok ->.
  pose proof (occurs_at_app a tok b) as Hhere.
  destruct (String.index 0 tok (a +:+ tok +:+ b)) as [m |] eqn:Hidx.
  - pose proof (String.index_correct1 _ _ _ _ Hidx) as Hat.
    pose proof (substring_split _ _ _ Hat) as Hsplit.
    eexists _, _. split; [exact Hsplit |].
    intros p Hp. apply (String.index_correct2 _ _ _ _ Hidx); [lia |].
    assert (String.length (String.substring 0 m (a +:+ tok +:+ b)) <= m)%nat
      as Hle by apply substring_length_le.
    lia.
  - destruct (String.index_correct3 _ (String.length a) _ _ Hidx Htok);
      [lia | exact Hhere].
Qed.

End String_slices.

(** C6.  When the search answers with a non-empty result list whose first
    artwork URL contains "100x100", write that URL as
    [pre ++ "100x100" ++ post] at the first place where the token stands.
    The program then sends exactly two requests, the search and
    [pre ++ "600x600" ++ post]; and when that second request succeeds, the
    fetch returns the bytes of its body together with the value of its
    content-type header. *)
Theorem C6_artwork_600 (w : World) (rev : revision) (u : string)
    (resp : Response) (found : itunesResult) (first : itunesEntry)
    (others : list itunesEntry) :
  w_Get w u = inr resp ->
  json_Decode (w_DecodeItunes w) (resp_Body resp) = inr found ->
  Results found = first :: others ->
  (exists a b, ArtworkURL100 first = a +:+ "100x100" +:+ b) ->
  exists pre post,
    ArtworkURL100 first = pre +:+ "100x100" +:+ post /\
    (forall p, (p < String.length pre)%nat -> ~ occurs_at p "100x100" (ArtworkURL100 first)) /\
    requests (fetchAlbumArtURL w rev u) = [u; pre +:+ "600x600" +:+ post] /\
    (forall resp2 b,
        w_Get w (pre +:+ "600x600" +:+ post) = inr resp2 ->
        resp_Body resp2 = Bytes b ->
        result (fetchAlbumArtURL w rev u) = inr (inr (b, resp_Header resp2 "content-type"))).
Proof.
  intros Hget Hdec Hres (a & b & Hcontains).
  destruct (first_occurrence (ArtworkURL100 first) "100x100" a b)
    as (pre & post & Hurl & Hfirst); [done.. |].
  exists pre, post. split; [done |]. split; [done |].
  assert (artworkUrl600 first = pre +:+ "600x600" +:+ post) as Hurl600.
  { unfold artworkUrl600. rewrite Hurl in *. by apply Replace_first. }
  unfold fetchAlbumArtURL, http_Get. simpl.
  rewrite Hget. simpl. rewrite Hdec, Hres, Hurl600. split.
  - destruct (w_Get w (pre +:+ _)) as [m | resp2]; [done |]. simpl.
    by destruct (io_ReadAll _).
  - intros resp2 body -> Hbody. simpl. by rewrite Hbody.
Qed.

Lemma C6_artwork_600_witness :
  requests (fetchAlbumArtURL Sample.online Upstream
              "https://itunes.apple.com/search?term=A+T&media=music&limit=1")
  = ["https://itunes.apple.com/search?term=A+T&media=music&limit=1";
     "https://img/600x600/a100x100bb.jpg"] /\
  result (fetchAlbumArtURL Sample.online Upstream
              "https://itunes.apple.com/search?term=A+T&media=music&limit=1")
  = inr (inr ("JPEG", "image/jpeg")).
Proof.
  destruct (C6_artwork_600 Sample.online Upstream
              "https://itunes.apple.com/search?term=A+T&media=music&limit=1"
              {| resp_Body := Bytes "itunes.json";
                 resp_Header := Sample.header "text/javascript" |}
              {| Results := [ {| ArtworkURL100 := "https://img/100x100/a100x100bb.jpg" |} ] |}
              {| ArtworkURL100 := "https://img/100x100/a100x100bb.jpg" |} []
              eq_refl eq_refl eq_refl)
    as (pre & post & _ & _ & Hrequests & _).
  - by exists "https://img/", "/a100x100bb.jpg".
  - split; reflexivity.
Defined.

(* ================================================================== *)
(** * Frames of a tag *)
(* ================================================================== *)

Section Tag_frames.

Implicit Types (tag : Tag) (id : string) (f : Framer).

Lemma GetFrames_DeleteFrames id tag : GetFrames id (DeleteFrames id tag) = [].
Proof. unfold GetFrames, DeleteFrames; simpl. by rewrite lookup_delete_eq. Qed.

Lemma GetFrames_DeleteFrames_ne id id' tag :
  id <> id' -> GetFrames id' (DeleteFrames id tag) = GetFrames id' tag.
Proof. intros. unfold GetFrames, DeleteFrames; simpl. by rewrite lookup_delete_ne. Qed.

Lemma GetFrames_AddFrame id f tag :
  GetFrames id (AddFrame id f tag) = sequence_AddFrame f (GetFrames id tag).
Proof. unfold GetFrames at 1, AddFrame; simpl. by rewrite lookup_insert_eq. Qed.

Lemma GetFrames_AddFrame_ne id id' f tag :
  id <> id' -> GetFrames id' (AddFrame id f tag) = GetFrames id' tag.
Proof. intros. unfold GetFrames at 1, AddFrame; simpl. by rewrite lookup_insert_ne. Qed.

Lemma GetFrames_SetDefaultEncoding id enc tag :
  GetFrames id (SetDefaultEncoding enc tag) = GetFrames id tag.
Proof. done. Qed.

(** Deleting the frames of an ID and adding one leaves that one. *)
Lemma GetFrames_replace id f tag :
  GetFrames id (AddFrame id f (DeleteFrames id tag)) = [f].
Proof. by rewrite GetFrames_AddFrame, GetFrames_DeleteFrames. Qed.

Lemma GetFrames_replace_ne id id' f tag :
  id <> id' -> GetFrames id' (AddFrame id f (DeleteFrames id tag)) = GetFrames id' tag.
Proof. intros. by rewrite GetFrames_AddFrame_ne, GetFrames_DeleteFrames_ne. Qed.

Lemma fixComments_first lang tag c0 rest :
  GetFrames (CommonID "Comments") tag = FComment c0 :: rest ->
  fixComments lang tag
  = Some (AddCommentFrame (fixedComment lang c0) (DeleteFrames (CommonID "Comments") tag)).
Proof. intros H. unfold fixComments. by rewrite H. Qed.

Lemma fixComments_none lang tag :
  GetFrames (CommonID "Comments") tag = [] -> fixComments lang tag = Some tag.
Proof. intros H. unfold fixComments. by rewrite H. Qed.

(** The comment fix touches the comment frames only. *)
Lemma fixComments_other lang tag tag' id :
  fixComments lang tag = Some tag' ->
  id <> CommonID "Comments" ->
  GetFrames id tag' = GetFrames id tag.
Proof.
  unfold fixComments. intros Hfix Hid.
  destruct (GetFrames (CommonID "Comments") tag) as [| [| c0 | | |] rest];
    simplify_eq; [done |].
  by apply GetFrames_replace_ne.
Qed.

End Tag_frames.

(** C3, as the code has it.  On a tag whose first comment frame is [c0] the
    comment fix leaves exactly one comment frame.  It has the description
    and the text of [c0]; its encoding is ISO-8859-1 and its language is the
    language of the command line, whatever those of [c0] were.  The frames
    under every other ID and the default encoding stay as they are. *)
Theorem C3_comment_fix (lang : string) (tag : Tag) (c0 : CommentFrame) (rest : list Framer) :
  GetFrames (CommonID "Comments") tag = FComment c0 :: rest ->
  exists tag',
    fixComments lang tag = Some tag' /\
    GetFrames (CommonID "Comments") tag'
    = [FComment {| cf_Encoding := EncodingISO;
                   cf_Language := lang;
                   cf_Description := cf_Description c0;
                   cf_Text := cf_Text c0 |}] /\
    (forall id, id <> CommonID "Comments" -> GetFrames id tag' = GetFrames id tag) /\
    defaultEncoding tag' = defaultEncoding tag.
Proof.
  intros Hfirst. eexists. split; [exact (fixComments_first lang tag c0 rest Hfirst) |].
  split; [apply GetFrames_replace |].
  split; [| done].
  intros id Hid. by apply GetFrames_replace_ne.
Qed.

Lemma C3_comment_fix_witness :
  exists tag',
    fixComments "jpn" Sample.tag = Some tag' /\
    GetFrames (CommonID "Comments") tag'
    = [Sample.comment EncodingISO "jpn" "note" "first"] /\
    (forall id, id <> CommonID "Comments" -> GetFrames id tag' = GetFrames id Sample.tag) /\
    defaultEncoding tag' = defaultEncoding Sample.tag.
Proof.
  apply (C3_comment_fix "jpn" Sample.tag
           {| cf_Encoding := EncodingUTF16; cf_Language := "eng";
              cf_Description := "note"; cf_Text := "first" |}
           [Sample.comment EncodingUTF8 "deu" "zweite" "second"]).
  reflexivity.
Defined.

(** C3 as stated fails: the first comment of the sample tag is in English,
    and after the fix with the default language flag it is marked Japanese. *)
Lemma C3_counterexample : ~ fix_keeps_language "jpn" Sample.tag.
Proof.
  intros Hclaim.
  destruct (Hclaim {| cf_Encoding := EncodingUTF16; cf_Language := "eng";
                      cf_Description := "note"; cf_Text := "first" |}
                   [Sample.comment EncodingUTF8 "deu" "zweite" "second"] eq_refl)
    as (tag' & c & Hfix & Hhead & _ & _ & Hlang).
  rewrite (fixComments_first "jpn" Sample.tag _ _ eq_refl) in Hfix.
  injection Hfix as <-.
  unfold AddCommentFrame in Hhead. rewrite GetFrames_replace in Hhead.
  injection Hhead as <-. discriminate Hlang.
Qed.

(* ================================================================== *)
(** * What the steps of [main] show *)
(* ================================================================== *)

Lemma observe_os_Exit {A X} (p : event -> option X) (status : Z) :
  observe p (os_Exit (A := A) status) = [].
Proof. done. Qed.

Lemma observe_panic {A X} (p : event -> option X) (msg : string) :
  observe p (panic (A := A) msg) = [].
Proof. done. Qed.

Lemma observe_log_Fatalf {A X} (p : event -> option X) (prefix : string) (err : error) :
  observe p (log_Fatalf (A := A) prefix err) = option_list (p (EvFatal prefix err)).
Proof. unfold observe; simpl. by destruct (p _). Qed.

(** Rewriting an observation down to the single events of a step. *)
Ltac observe_events :=
  repeat first
    [ rewrite observe_bind
    | rewrite observe_ret
    | rewrite observe_emit
    | rewrite observe_os_Exit
    | rewrite observe_panic
    | rewrite observe_log_Fatalf
    | case_match ];
  try reflexivity.

Section Saving.

Context (w : World) (rev : revision).

Lemma saved_listFrames (tag : Tag) : saved (listFrames w tag) = [].
Proof.
  apply observe_for_each; intros k.
  apply observe_for_each; intros v. reflexivity.
Qed.

Lemma saved_commentsStep (cl : CommandLine) (tag : Tag) : saved (commentsStep cl tag) = [].
Proof. unfold commentsStep. observe_events. Qed.

Lemma saved_downloadLrc (artist title : string) : saved (downloadLrc w rev artist title) = [].
Proof. by rewrite downloadLrc_unfold. Qed.

Lemma saved_fetchAlbumArtURL (u : string) : saved (fetchAlbumArtURL w rev u) = [].
Proof. unfold fetchAlbumArtURL, http_Get. observe_events. Qed.

Lemma saved_imageStep (cl : CommandLine) (tag : Tag) : saved (imageStep w rev cl tag) = [].
Proof.
  unfold imageStep, tag_Artist, tag_Title, os_ReadFile.
  observe_events; rewrite ?saved_fetchAlbumArtURL; reflexivity.
Qed.

Lemma saved_lyricsStep (cl : CommandLine) (tag : Tag) : saved (lyricsStep w rev cl tag) = [].
Proof.
  unfold lyricsStep, tag_Artist, tag_Title, os_ReadFile.
  observe_events; rewrite ?saved_downloadLrc; reflexivity.
Qed.

Lemma saved_mutate (cl : CommandLine) (tag : Tag) : saved (mutate w rev cl tag) = [].
Proof.
  unfold mutate.
  repeat first
    [ rewrite observe_bind | rewrite saved_listFrames | rewrite saved_commentsStep
    | rewrite saved_imageStep | rewrite saved_lyricsStep | case_match ];
    reflexivity.
Qed.

Lemma saved_saveStep (cl : CommandLine) (mp3File : string) (tag : Tag) :
  saved (saveStep w rev cl mp3File tag) = if dryRun cl then [] else [tag].
Proof.
  unfold saveStep, tag_Save. destruct (dryRun cl); [reflexivity |]. simpl.
  by destruct (w_Save w tag).
Qed.

End Saving.

Section Whole_run.

Context (w : World) (rev : revision) (cl : CommandLine).

(** [main] up to the opening of the file. *)
Lemma main_opened (tag : Tag) :
  flag_Arg cl 0 <> "" ->
  w_Open w (flag_Arg cl 0) = inr tag ->
  main w rev cl =
  bind (emit (EvOpen (flag_Arg cl 0)))
       (fun _ => defer [EvClose]
                   (bind (mutate w rev cl tag) (saveStep w rev cl (flag_Arg cl 0)))).
Proof.
  intros Hname%String.eqb_neq Hopen. unfold main, id3v2_Open.
  rewrite Hname, bind_ret_l. simpl. rewrite Hopen.
  by destruct (defer _ _).
Qed.

Lemma main_not_opened :
  flag_Arg cl 0 = "" \/ (exists m, w_Open w (flag_Arg cl 0) = inl m) ->
  saved (main w rev cl) = [] /\ requests (main w rev cl) = [] /\
  exists status, result (main w rev cl) = inl (Exit status) /\ status <> 0.
Proof.
  unfold main, id3v2_Open. destruct (String.eqb_spec (flag_Arg cl 0) "") as [-> | Hname].
  - intros _. simpl. repeat split. by exists 1.
  - intros [? | [m Hopen]]; [done |].
    simpl. rewrite Hopen. repeat split. by exists 1.
Qed.

(** The tags that a run saves: the tag that [mutate] returns, once, unless
    the run is a dry run or has stopped before. *)
Lemma saved_main :
  saved (main w rev cl) =
  if String.eqb (flag_Arg cl 0) "" then []
  else match w_Open w (flag_Arg cl 0) with
       | inl _ => []
       | inr tag =>
           match result (mutate w rev cl tag) with
           | inl _ => []
           | inr tag' => if dryRun cl then [] else [tag']
           end
       end.
Proof.
  destruct (String.eqb_spec (flag_Arg cl 0) "") as [Hname | Hname].
  { apply main_not_opened. by left. }
  destruct (w_Open w (flag_Arg cl 0)) as [m | tag] eqn:Hopen.
  { apply main_not_opened. right. by exists m. }
  rewrite (main_opened tag Hname Hopen).
  rewrite observe_bind, observe_emit. simpl.
  rewrite observe_defer by done.
  rewrite observe_bind, saved_mutate. simpl.
  destruct (result (mutate w rev cl tag)) as [h | tag']; [done |].
  apply saved_saveStep.
Qed.

(** A run that returns has opened the file and changed the tag in memory. *)
Lemma main_returns :
  result (main w rev cl) = inr tt ->
  exists tag tag',
    String.eqb (flag_Arg cl 0) "" = false /\
    w_Open w (flag_Arg cl 0) = inr tag /\
    result (mutate w rev cl tag) = inr tag'.
Proof.
  destruct (String.eqb_spec (flag_Arg cl 0) "") as [Hname | Hname].
  { intros Hret. destruct main_not_opened as (_ & _ & status & Hres & _); [by left |].
    congruence. }
  destruct (w_Open w (flag_Arg cl 0)) as [m | tag] eqn:Hopen.
  { intros Hret. destruct main_not_opened as (_ & _ & status & Hres & _).
    - right. by exists m.
    - congruence. }
  rewrite (main_opened tag Hname Hopen).
  rewrite result_bind. simpl. rewrite defer_result, result_bind.
  destruct (result (mutate w rev cl tag)) as [h | tag'] eqn:Hmut; [done |].
  apply String.eqb_neq in Hname. eauto.
Qed.

End Whole_run.

(** C4.  A dry run never calls [tag.Save()]; a run that is not a dry run and
    returns from [main] has called it exactly once. *)
Theorem C4_save_once (w : World) (rev : revision) (cl : CommandLine) :
  (dryRun cl = true -> saves (main w rev cl) = 0%nat) /\
  (dryRun cl = false -> result (main w rev cl) = inr tt -> saves (main w rev cl) = 1%nat).
Proof.
  unfold saves. rewrite saved_main. split.
  - intros ->. by repeat case_match.
  - intros -> (tag & tag' & -> & -> & ->)%main_returns. done.
Qed.

Lemma C4_save_once_witness :
  saves (main Sample.online Upstream (Sample.cmd "auto" "lyrics.lrc" true ["song.mp3"])) = 0%nat /\
  saves (main Sample.online Commented (Sample.cmd "auto" "auto" false ["song.mp3"])) = 1%nat.
Proof.
  split.
  - by apply (C4_save_once Sample.online Upstream
                (Sample.cmd "auto" "lyrics.lrc" true ["song.mp3"])).
  - by apply (C4_save_once Sample.online Commented
                (Sample.cmd "auto" "auto" false ["song.mp3"])).
Defined.

(* ================================================================== *)
(** * Which frames the steps change *)
(* ================================================================== *)

(** Following a computation down to the branches in which it returns. *)
Ltac returning_branches :=
  repeat first [ rewrite result_bind | case_match ];
  simpl; try (intros; simplify_eq).

Section Step_frames.

Context (w : World) (rev : revision) (cl : CommandLine).
Implicit Types (tag : Tag) (id : string).

Lemma commentsStep_returns tag tag' :
  result (commentsStep cl tag) = inr tag' <-> fixComments (embedLang cl) tag = Some tag'.
Proof.
  unfold commentsStep. destruct (fixComments _ _); simpl; split; congruence.
Qed.

Lemma imageStep_frames tag tag' id :
  result (imageStep w rev cl tag) = inr tag' ->
  id <> CommonID "Attached picture" ->
  GetFrames id tag' = GetFrames id tag.
Proof.
  unfold imageStep, tag_Artist, tag_Title. returning_branches;
    try reflexivity; by apply GetFrames_replace_ne.
Qed.

Lemma lyricsStep_frames tag tag' id :
  result (lyricsStep w rev cl tag) = inr tag' ->
  id <> CommonID "Unsynchronised lyrics/text transcription" ->
  GetFrames id tag' = GetFrames id tag.
Proof.
  unfold lyricsStep, tag_Artist, tag_Title. returning_branches;
    try reflexivity; by apply GetFrames_replace_ne.
Qed.

(** When [mutate] returns, its three steps have returned in turn. *)
Lemma mutate_returns tag tag' :
  result (mutate w rev cl tag) = inr tag' ->
  exists tag1 tag2,
    fixComments (embedLang cl) (SetDefaultEncoding EncodingUTF16 tag) = Some tag1 /\
    result (imageStep w rev cl tag1) = inr tag2 /\
    result (lyricsStep w rev cl tag2) = inr tag'.
Proof.
  unfold mutate. rewrite result_bind.
  destruct (result (if dryRun cl then _ else _)); [done |].
  rewrite result_bind.
  destruct (result (commentsStep _ _)) as [| tag1] eqn:H1; [done |].
  rewrite result_bind.
  destruct (result (imageStep _ _ _ _)) as [| tag2] eqn:H2; [done |].
  intros H3. exists tag1, tag2. by rewrite <- commentsStep_returns.
Qed.

(** The image step and the lyrics step leave the comment frames alone: what
    [mutate] returns has the one comment frame of the comment fix. *)
Lemma mutate_comments tag tag' c0 rest :
  GetFrames (CommonID "Comments") tag = FComment c0 :: rest ->
  result (mutate w rev cl tag) = inr tag' ->
  GetFrames (CommonID "Comments") tag' = [FComment (fixedComment (embedLang cl) c0)].
Proof.
  intros Hfirst (tag1 & tag2 & Hfix & Himage & Hlyrics)%mutate_returns.
  rewrite (lyricsStep_frames _ _ _ Hlyrics) by done.
  rewrite (imageStep_frames _ _ _ Himage) by done.
  rewrite (fixComments_first _ _ c0 rest) in Hfix by done.
  injection Hfix as <-. apply GetFrames_replace.
Qed.

End Step_frames.

(** C9.  On a tag with more than one comment frame the comment fix leaves
    exactly one, built from the first; none of the later steps adds a
    comment frame, so every tag that the run saves holds that single comment
    frame and the later ones are gone. *)
Theorem C9_later_comments_dropped (w : World) (rev : revision) (cl : CommandLine)
    (tag : Tag) (c0 : CommentFrame) (second : Framer) (rest : list Framer) :
  GetFrames (CommonID "Comments") tag = FComment c0 :: second :: rest ->
  (exists tag',
      fixComments (embedLang cl) tag = Some tag' /\
      GetFrames (CommonID "Comments") tag' = [FComment (fixedComment (embedLang cl) c0)]) /\
  (w_Open w (flag_Arg cl 0) = inr tag ->
   forall tag', tag' ∈ saved (main w rev cl) ->
     GetFrames (CommonID "Comments") tag' = [FComment (fixedComment (embedLang cl) c0)]).
Proof.
  intros Hfirst. split.
  - eexists. split; [exact (fixComments_first _ _ _ _ Hfirst) |].
    apply GetFrames_replace.
  - intros Hopen tag'. rewrite saved_main, Hopen.
    destruct (String.eqb _ _); [by intros ?%elem_of_nil |].
    destruct (result (mutate w rev cl tag)) as [h | t] eqn:Hmut;
      [by intros ?%elem_of_nil |].
    destruct (dryRun cl); [by intros ?%elem_of_nil |].
    intros ->%list_elem_of_singleton.
    exact (mutate_comments w rev cl tag t c0 (second :: rest) Hfirst Hmut).
Qed.

Lemma C9_later_comments_dropped_witness :
  saved (main Sample.online Commented (Sample.cmd "" "auto" false ["song.mp3"])) <> [] /\
  forall tag',
    tag' ∈ saved (main Sample.online Commented (Sample.cmd "" "auto" false ["song.mp3"])) ->
    GetFrames (CommonID "Comments") tag' = [Sample.comment EncodingISO "jpn" "note" "first"].
Proof.
  split; [by vm_compute |].
  apply (C9_later_comments_dropped Sample.online Commented
           (Sample.cmd "" "auto" false ["song.mp3"]) Sample.tag
           {| cf_Encoding := EncodingUTF16; cf_Language := "eng";
              cf_Description := "note"; cf_Text := "first" |}
           (Sample.comment EncodingUTF8 "deu" "zweite" "second") []);
    reflexivity.
Defined.

(* ================================================================== *)
(** * Runs that end in a fatal error *)
(* ================================================================== *)

Section Dying.

Context {A B : Type}.

Lemma dies_with_log_Fatalf (prefix : string) (err : error) :
  dies_with err (log_Fatalf (A := A) prefix err).
Proof. by exists [], prefix. Qed.

Lemma dies_with_bind_l (err : error) (m : M A) (f : A -> M B) :
  dies_with err m -> dies_with err (bind m f).
Proof. intros (t & prefix & ->). by exists t, prefix. Qed.

Lemma dies_with_bind_r (err : error) (m : M A) (f : A -> M B) (a : A) :
  result m = inr a -> dies_with err (f a) -> dies_with err (bind m f).
Proof.
  intros Hm (t & prefix & Hf). exists (trace m ++ t), prefix.
  rewrite (bind_returns m f a Hm), Hf. simpl. by rewrite app_assoc.
Qed.

Lemma dies_with_defer (err : error) (d : list event) (m : M A) :
  dies_with err m -> dies_with err (defer d m).
Proof. intros (t & prefix & ->). by exists t, prefix. Qed.

Lemma dies_with_result (err : error) (m : M A) :
  dies_with err m -> result m = inl (Exit 1).
Proof. by intros (t & prefix & ->). Qed.

End Dying.

Section Typed_frames.

Implicit Types (tag : Tag).

Lemma GetTextFrame_Text_ext id tag tag' :
  GetFrames id tag' = GetFrames id tag ->
  GetTextFrame_Text id tag' = GetTextFrame_Text id tag.
Proof. unfold GetTextFrame_Text. by intros ->. Qed.

Lemma GetTextFrame_Text_typed id tag :
  Forall (fun f => exists t, f = FText t) (GetFrames id tag) ->
  is_Some (GetTextFrame_Text id tag).
Proof.
  unfold GetTextFrame_Text. intros Htyped.
  destruct (last (GetFrames id tag)) as [f |] eqn:Hlast; [| by eexists].
  apply last_Some_elem_of in Hlast.
  rewrite Forall_forall in Htyped.
  destruct (Htyped f Hlast) as [t ->]. by eexists.
Qed.

Lemma well_typed_fixComments lang enc tag :
  well_typed tag ->
  exists tag1,
    fixComments lang (SetDefaultEncoding enc tag) = Some tag1 /\
    forall id, id <> CommonID "Comments" -> GetFrames id tag1 = GetFrames id tag.
Proof.
  intros (Hcomments & _). unfold fixComments.
  rewrite GetFrames_SetDefaultEncoding.
  destruct (GetFrames (CommonID "Comments") tag) as [| f rest].
  - by eexists.
  - apply Forall_cons_1 in Hcomments as [[c0 ->] _].
    eexists. split; [done |].
    intros id Hid. unfold AddCommentFrame. by rewrite GetFrames_replace_ne.
Qed.

End Typed_frames.

Section Network_down.

Context (w : World) (rev : revision) (cl : CommandLine).
Context (Hdown : network_down w).
Implicit Types (tag : Tag).

Lemma fetchAlbumArtURL_down (u : string) :
  exists m, fetchAlbumArtURL w rev u = ([EvGet u], inr (inl (NetworkError m))).
Proof.
  destruct (Hdown u) as [m Hget]. exists m.
  unfold fetchAlbumArtURL, http_Get. simpl. by rewrite Hget.
Qed.

Lemma downloadLrc_down (artist title : string) :
  exists m, downloadLrc w rev artist title
            = ([EvGet (lrclibUrl artist title)], inr (inl (NetworkError m))).
Proof.
  destruct (Hdown (lrclibUrl artist title)) as [m Hget]. exists m.
  by rewrite downloadLrc_unfold, Hget.
Qed.

(** The cover-art branch outside a dry run. *)
Lemma imageStep_down tag artist title :
  embedImage cl = "auto" ->
  dryRun cl = false ->
  Artist tag = Some artist ->
  Title tag = Some title ->
  exists m, dies_with (NetworkError m) (imageStep w rev cl tag).
Proof.
  intros Himage Hdry Hartist Htitle.
  destruct (fetchAlbumArtURL_down (coverArtUrl artist title)) as [m Hfetch].
  exists m. unfold imageStep, tag_Artist, tag_Title.
  rewrite Himage, Hdry, Hartist, Htitle. simpl.
  rewrite Hfetch. simpl.
  by eexists [EvGet _], _.
Qed.

(** The automatic lyrics branch, dry run or not. *)
Lemma lyricsStep_down tag artist title :
  embedLyrics cl <> "" ->
  lyricsAuto rev cl = true ->
  Artist tag = Some artist ->
  Title tag = Some title ->
  exists m, dies_with (NetworkError m) (lyricsStep w rev cl tag).
Proof.
  intros Hlyrics%String.eqb_neq Hauto Hartist Htitle.
  destruct (downloadLrc_down artist title) as [m Hfetch].
  exists m. unfold lyricsStep, tag_Artist, tag_Title.
  rewrite Hlyrics, Hauto, Hartist, Htitle. simpl.
  rewrite Hfetch. simpl.
  by eexists [EvGet _], _.
Qed.

End Network_down.

Section Passing_steps.

Context (w : World) (rev : revision) (cl : CommandLine).
Implicit Types (tag : Tag).

Lemma for_each_prints {T} (l : list T) (line : T -> list string) (body : T -> M unit) :
  (forall x, body x = (EvStdout <$> line x, inr tt)) ->
  for_each l body = (EvStdout <$> concat (line <$> l), inr tt).
Proof.
  intros Hbody. induction l as [| x l IH]; [done |].
  simpl. rewrite Hbody, IH. simpl. by rewrite fmap_app.
Qed.

Lemma for_each_emit {T} (l : list T) (line : T -> string) :
  for_each l (fun x => emit (EvStdout (line x))) = (EvStdout <$> (line <$> l), inr tt).
Proof.
  induction l as [| x l IH]; [done |]. simpl. by rewrite IH.
Qed.

(** The dry-run listing only prints. *)
Lemma listFrames_prints tag :
  exists lines, listFrames w tag = (EvStdout <$> lines, inr tt).
Proof.
  unfold listFrames. eexists.
  apply (for_each_prints _
           (fun k => (fun v => k +:+ ": " +:+ frameSummary w v +:+ Go.nl)
                       <$> default [] (AllFrames tag !! k))).
  intros k. apply for_each_emit.
Qed.

Lemma listing_prints tag :
  exists lines,
    (if dryRun cl then listFrames w tag else ret tt) = (EvStdout <$> lines, inr tt).
Proof.
  destruct (dryRun cl); [apply listFrames_prints | by exists []].
Qed.

(** In a dry run the image step only prints. *)
Lemma imageStep_dry tag :
  dryRun cl = true ->
  is_Some (Artist tag) ->
  is_Some (Title tag) ->
  exists lines, imageStep w rev cl tag = (EvStdout <$> lines, inr tag).
Proof.
  intros Hdry [artist Hartist] [title Htitle].
  unfold imageStep, tag_Artist, tag_Title. rewrite Hdry, Hartist, Htitle.
  destruct (String.eqb (embedImage cl) ""); simpl; [by exists [] |].
  destruct (String.eqb (embedImage cl) "auto"); simpl; by eexists [_; _].
Qed.

(** The image step returns unless a request or the reading of the image
    file fails. *)
Lemma imageStep_passes tag :
  (embedImage cl = "auto" -> dryRun cl = true) ->
  embedImage cl = "" \/ embedImage cl = "auto" \/ dryRun cl = true \/
    (exists b, w_ReadFile w (embedImage cl) = inr b) ->
  is_Some (Artist tag) ->
  is_Some (Title tag) ->
  exists tag', result (imageStep w rev cl tag) = inr tag'.
Proof.
  intros Hauto Hcases Hartist Htitle.
  destruct (dryRun cl) eqn:Hdry.
  { destruct (imageStep_dry tag Hdry Hartist Htitle) as [lines ->]. by eexists. }
  unfold imageStep, os_ReadFile. rewrite Hdry.
  destruct (String.eqb_spec (embedImage cl) "") as [| Hne]; simpl; [by eexists |].
  destruct (String.eqb_spec (embedImage cl) "auto") as [Himage | Hnauto]; simpl.
  { by specialize (Hauto Himage). }
  destruct Hcases as [? | [? | [? | [b ->]]]]; try done. by eexists.
Qed.

(** The automatic lyrics branch starts with the lookup. *)
Lemma lyricsStep_auto tag artist title :
  embedLyrics cl <> "" ->
  lyricsAuto rev cl = true ->
  Artist tag = Some artist ->
  Title tag = Some title ->
  lyricsStep w rev cl tag =
  bind (downloadLrc w rev artist title)
       (fun r => match r with
                 | inl err => log_Fatalf "" err
                 | inr lyrics =>
                     if dryRun cl
                     then bind (emit (EvStdout (Go.Sprintln [])))
                            (fun _ => bind (emit (EvStdout (Go.Sprintln [lyrics])))
                                        (fun _ => ret tag))
                     else ret (setLyrics (lyricsFrame (embedLang cl) lyrics) tag)
                 end).
Proof.
  intros Hlyrics%String.eqb_neq Hauto Hartist Htitle.
  unfold lyricsStep, tag_Artist, tag_Title.
  rewrite Hlyrics, Hauto, Hartist, Htitle. cbn [negb].
  by rewrite !bind_ret_l.
Qed.

End Passing_steps.

Section Typed_run.

Context (w : World) (rev : revision) (cl : CommandLine) (tag : Tag).
Context (Htyped : well_typed tag).

(** After the comment fix the artist and the title are still those of the
    opened tag. *)
Lemma typed_start :
  exists artist title tag1,
    Artist tag = Some artist /\ Title tag = Some title /\
    result (commentsStep cl (SetDefaultEncoding EncodingUTF16 tag)) = inr tag1 /\
    Artist tag1 = Some artist /\ Title tag1 = Some title.
Proof.
  destruct (well_typed_fixComments (embedLang cl) EncodingUTF16 tag Htyped)
    as (tag1 & Hfix & Hother).
  destruct Htyped as (_ & Hartist & Htitle).
  apply GetTextFrame_Text_typed in Hartist as [artist Hartist].
  apply GetTextFrame_Text_typed in Htitle as [title Htitle].
  exists artist, title, tag1. repeat split; try done.
  - by apply commentsStep_returns.
  - unfold Artist. by rewrite (GetTextFrame_Text_ext _ tag tag1) by by apply Hother.
  - unfold Title. by rewrite (GetTextFrame_Text_ext _ tag tag1) by by apply Hother.
Qed.

(** [mutate] dies where its image step or its lyrics step dies. *)
Lemma mutate_dies_in_imageStep (err : error) :
  (forall tag1,
      result (commentsStep cl (SetDefaultEncoding EncodingUTF16 tag)) = inr tag1 ->
      dies_with err (imageStep w rev cl tag1)) ->
  dies_with err (mutate w rev cl tag).
Proof.
  intros Hdies. destruct typed_start as (artist & title & tag1 & _ & _ & Hfix & _).
  destruct (listing_prints w cl tag) as [lines Hlist].
  unfold mutate. apply (dies_with_bind_r _ _ _ tt); [by rewrite Hlist |].
  apply (dies_with_bind_r _ _ _ tag1 Hfix).
  apply dies_with_bind_l. by apply Hdies.
Qed.

Lemma mutate_dies_in_lyricsStep (err : error) :
  (forall tag1 tag2,
      result (commentsStep cl (SetDefaultEncoding EncodingUTF16 tag)) = inr tag1 ->
      result (imageStep w rev cl tag1) = inr tag2 ->
      dies_with err (lyricsStep w rev cl tag2)) ->
  (forall tag1,
      result (commentsStep cl (SetDefaultEncoding EncodingUTF16 tag)) = inr tag1 ->
      exists tag2, result (imageStep w rev cl tag1) = inr tag2) ->
  dies_with err (mutate w rev cl tag).
Proof.
  intros Hdies Hpass. destruct typed_start as (artist & title & tag1 & _ & _ & Hfix & _).
  destruct (Hpass tag1 Hfix) as [tag2 Himage].
  destruct (listing_prints w cl tag) as [lines Hlist].
  unfold mutate. apply (dies_with_bind_r _ _ _ tt); [by rewrite Hlist |].
  apply (dies_with_bind_r _ _ _ tag1 Hfix).
  apply (dies_with_bind_r _ _ _ tag2 Himage). by apply (Hdies tag1).
Qed.

(** The image step keeps the artist and the title. *)
Lemma imageStep_keeps_names tag1 tag2 :
  result (imageStep w rev cl tag1) = inr tag2 ->
  Artist tag2 = Artist tag1 /\ Title tag2 = Title tag1.
Proof.
  intros Himage. unfold Artist, Title.
  split; apply GetTextFrame_Text_ext; by apply (imageStep_frames w rev cl).
Qed.

Context (Hname : flag_Arg cl 0 <> "").
Context (Hopen : w_Open w (flag_Arg cl 0) = inr tag).

(** When [mutate] dies, so does the run, and nothing is saved. *)
Lemma main_dies_in_mutate (err : error) :
  dies_with err (mutate w rev cl tag) ->
  dies_with err (main w rev cl) /\ saves (main w rev cl) = 0%nat.
Proof.
  intros Hdies. split.
  - rewrite (main_opened w rev cl tag Hname Hopen).
    apply (dies_with_bind_r _ _ _ tt); [done |].
    by apply dies_with_defer, dies_with_bind_l.
  - unfold saves. rewrite saved_main, Hopen, (dies_with_result _ _ Hdies).
    by destruct (String.eqb _ _).
Qed.

End Typed_run.




(* ================================================================== *)
(** * Dry runs *)
(* ================================================================== *)

Section Dry_run.

Context (w : World) (rev : revision) (cl : CommandLine) (tag : Tag).
Context (Hdry : dryRun cl = true) (Htyped : well_typed tag).

(** In a dry run everything before the lyrics step only prints. *)
Lemma mutate_dry :
  exists lines tag1,
    Artist tag1 = Artist tag /\ Title tag1 = Title tag /\
    mutate w rev cl tag =
    bind ((EvStdout <$> lines, inr tt) : M unit) (fun _ => lyricsStep w rev cl tag1).
Proof.
  destruct (typed_start cl tag Htyped)
    as (artist & title & tag1 & Hartist & Htitle & Hfix & Hartist1 & Htitle1).
  destruct (listFrames_prints w tag) as [lines Hlist].
  destruct (imageStep_dry w rev cl tag1 Hdry) as [lines1 Himage];
    [by rewrite Hartist1 | by rewrite Htitle1 |].
  exists (lines ++ lines1), tag1.
  split; [congruence |]. split; [congruence |].
  apply commentsStep_returns in Hfix.
  unfold mutate, commentsStep. rewrite Hdry, Hlist, Hfix, bind_ret_l, Himage.
  simpl. destruct (lyricsStep w rev cl tag1) as [t r].
  by rewrite fmap_app, app_assoc.
Qed.

Lemma requests_prints {T} (lines : list string) (r : halt + T) :
  requests ((EvStdout <$> lines, r) : M T) = [].
Proof. unfold observe; simpl. by induction lines. Qed.

End Dry_run.

(** C10.  Take a dry run that names its file and opens a well-typed tag with
    the given artist and title, and in which the automatic lyrics branch is
    taken.  The lyrics request is the one request of the run, whatever the
    image flag says; when the lookup fails the run ends in a fatal log of
    that error with exit status 1, although nothing would have been saved.
    The cover-art branch of a dry run, by contrast, prints an empty line and
    the search URL and returns, without a request. *)
Theorem C10_dry_run_fetches_lyrics (w : World) (rev : revision) (cl : CommandLine)
    (tag : Tag) (artist title : string) :
  flag_Arg cl 0 <> "" ->
  w_Open w (flag_Arg cl 0) = inr tag ->
  well_typed tag ->
  Artist tag = Some artist ->
  Title tag = Some title ->
  dryRun cl = true ->
  embedLyrics cl <> "" ->
  lyricsAuto rev cl = true ->
  requests (main w rev cl) = [lrclibUrl artist title] /\
  (forall err,
      result (downloadLrc w rev artist title) = inr (inl err) ->
      dies_with err (main w rev cl) /\ saves (main w rev cl) = 0%nat) /\
  (embedImage cl = "auto" ->
   imageStep w rev cl tag =
   ([EvStdout (Go.Sprintln []);
     EvStdout (Go.Sprintln [text rev "Covert art:" "Cover art URL:";
                            coverArtUrl artist title])],
    inr tag)).
Proof.
  intros Hname Hopen Htyped Hartist Htitle Hdry Hlyrics Hauto.
  destruct (mutate_dry w rev cl tag Hdry Htyped)
    as (lines & tag1 & Hartist1 & Htitle1 & Hmutate).
  rewrite Hartist in Hartist1. rewrite Htitle in Htitle1.
  rewrite (lyricsStep_auto w rev cl tag1 artist title Hlyrics Hauto Hartist1 Htitle1),
    downloadLrc_unfold in Hmutate.
  split; [| split].
  - assert (requests (mutate w rev cl tag) = [lrclibUrl artist title]) as Hrequests.
    { rewrite Hmutate, observe_bind, requests_prints. simpl.
      destruct (match w_Get w _ with inl _ => _ | inr _ => _ end) as [err | lyrics];
        [reflexivity |].
      by rewrite Hdry. }
    rewrite (main_opened w rev cl tag Hname Hopen).
    rewrite observe_bind, observe_emit, observe_defer by done. simpl.
    rewrite observe_bind, Hrequests.
    destruct (result (mutate w rev cl tag)); [reflexivity |].
    unfold saveStep. by rewrite Hdry.
  - intros err Herr. rewrite downloadLrc_unfold in Herr. simpl in Herr.
    injection Herr as Herr.
    apply (main_dies_in_mutate w rev cl tag Hname Hopen).
    rewrite Hmutate, Herr. apply (dies_with_bind_r _ _ _ tt); [done |].
    by eexists [EvGet _], _.
  - intros Himage. unfold imageStep, tag_Artist, tag_Title.
    by rewrite Himage, Hartist, Htitle, Hdry.
Qed.

Lemma C10_dry_run_fetches_lyrics_witness :
  requests (main Sample.offline Upstream (Sample.cmd "auto" "lyrics.lrc" true ["song.mp3"]))
  = ["https://lrclib.net/api/search?q=A+T"] /\
  result (main Sample.offline Upstream (Sample.cmd "auto" "lyrics.lrc" true ["song.mp3"]))
  = inl (Exit 1).
Proof.
  destruct (C10_dry_run_fetches_lyrics Sample.offline Upstream
              (Sample.cmd "auto" "lyrics.lrc" true ["song.mp3"]) Sample.tag "A" "T")
    as (Hrequests & Hdies & _).
  - discriminate.
  - reflexivity.
  - repeat split; repeat constructor; by eexists.
  - reflexivity.
  - reflexivity.
  - reflexivity.
  - discriminate.
  - reflexivity.
  - split; [exact Hrequests |].
    destruct (Hdies (NetworkError "dial tcp: network is unreachable") eq_refl)
      as [(t & prefix & ->) _].
    reflexivity.
Defined.

(* ================================================================== *)
(** * The guard of the automatic lyrics branch *)
(* ================================================================== *)

(** The requests of the lyrics step: the lookup when the guard of the
    revision holds, none otherwise. *)
Lemma requests_lyricsStep (w : World) (rev : revision) (cl : CommandLine) (tag : Tag)
    (artist title : string) :
  embedLyrics cl <> "" ->
  Artist tag = Some artist ->
  Title tag = Some title ->
  requests (lyricsStep w rev cl tag)
  = if lyricsAuto rev cl then [lrclibUrl artist title] else [].
Proof.
  intros Hlyrics Hartist Htitle.
  destruct (lyricsAuto rev cl) eqn:Hauto.
  - rewrite (lyricsStep_auto w rev cl tag artist title Hlyrics Hauto Hartist Htitle).
    rewrite downloadLrc_unfold, observe_bind. simpl.
    destruct (match w_Get w _ with inl _ => _ | inr _ => _ end) as [err | lyrics];
      [reflexivity |].
    by destruct (dryRun cl).
  - apply String.eqb_neq in Hlyrics.
    unfold lyricsStep, os_ReadFile. rewrite Hlyrics, Hauto. simpl.
    destruct (dryRun cl); [reflexivity |]. simpl.
    by destruct (w_ReadFile w (embedLyrics cl)).
Qed.

(** In the commented copy the lyrics are fetched exactly when the lyrics flag
    is "auto". *)
Lemma Commented_fetches_iff_lyrics_auto (w : World) (cl : CommandLine) (tag : Tag)
    (artist title : string) :
  embedLyrics cl <> "" ->
  Artist tag = Some artist ->
  Title tag = Some title ->
  requests (lyricsStep w Commented cl tag) = [lrclibUrl artist title]
  <-> embedLyrics cl = "auto".
Proof.
  intros Hlyrics Hartist Htitle.
  rewrite (requests_lyricsStep w Commented cl tag artist title) by done. simpl.
  destruct (String.eqb_spec (embedLyrics cl) "auto"); split; done.
Qed.

(** In [main.go] they are fetched exactly when the image flag is "auto". *)
Lemma Upstream_fetches_iff_image_auto (w : World) (cl : CommandLine) (tag : Tag)
    (artist title : string) :
  embedLyrics cl <> "" ->
  Artist tag = Some artist ->
  Title tag = Some title ->
  requests (lyricsStep w Upstream cl tag) = [lrclibUrl artist title]
  <-> embedImage cl = "auto".
Proof.
  intros Hlyrics Hartist Htitle.
  rewrite (requests_lyricsStep w Upstream cl tag artist title) by done. simpl.
  destruct (String.eqb_spec (embedImage cl) "auto"); split; done.
Qed.

(** C1.  The lyrics are to be fetched exactly when the lyrics flag is "auto".
    Run with [-lyrics auto song.mp3] and no image flag, [main.go] sends no
    request: it reads a local file called "auto" and saves its content as
    the lyrics.  The commented copy sends the lyrics request and reads no
    file. *)
Theorem C1_main_go_reads_file_named_auto :
  requests (main Sample.online Upstream (Sample.cmd "" "auto" false ["song.mp3"])) = [] /\
  observe read_file (main Sample.online Upstream (Sample.cmd "" "auto" false ["song.mp3"]))
  = ["auto"] /\
  (GetFrames (CommonID "Unsynchronised lyrics/text transcription")
     <$> saved (main Sample.online Upstream (Sample.cmd "" "auto" false ["song.mp3"])))
  = [[FLyrics (lyricsFrame "jpn" "local lyrics")]] /\
  requests (main Sample.online Commented (Sample.cmd "" "auto" false ["song.mp3"]))
  = ["https://lrclib.net/api/search?q=A+T"] /\
  observe read_file (main Sample.online Commented (Sample.cmd "" "auto" false ["song.mp3"]))
  = [].
Proof. repeat split; by vm_compute. Qed.

(* ================================================================== *)
(** * More on the two lookups *)
(* ================================================================== *)

Lemma firstMatch_Some (artist title lyrics : string) (results : list lrclibResult) :
  firstMatch artist title results = Some lyrics ->
  exists r, r ∈ results /\ matches artist title r /\ SyncedLyrics r = lyrics.
Proof.
  induction results as [| q results IH]; [done |]. simpl.
  destruct (_ && _) eqn:Hq.
  - intros [= <-]. exists q. split; [left |]. by apply matches_eqb in Hq.
  - intros (r & Hin & Hr)%IH. exists r. split; [by right | done].
Qed.



(** X2.  How [fetchAlbumArtURL] fails.  A failed search request, an answer
    that does not decode and an empty result list each end the fetch after
    the one search request, with the error of the request, the error of the
    decoder and the not-found error; a failed image request or an image body
    that breaks off ends it with that error after the second request.  The
    error is returned to the caller in every case. *)
Theorem fetchAlbumArtURL_failures (w : World) (rev : revision) (u : string) :
  (forall m,
      w_Get w u = inl m ->
      fetchAlbumArtURL w rev u = ([EvGet u], inr (inl (NetworkError m)))) /\
  (forall resp e,
      w_Get w u = inr resp ->
      json_Decode (w_DecodeItunes w) (resp_Body resp) = inl e ->
      fetchAlbumArtURL w rev u = ([EvGet u], inr (inl e))) /\
  (forall resp found,
      w_Get w u = inr resp ->
      json_Decode (w_DecodeItunes w) (resp_Body resp) = inr found ->
      Results found = [] ->
      fetchAlbumArtURL w rev u = ([EvGet u], inr (inl (albumArtNotFound rev)))) /\
  (forall resp found first others,
      w_Get w u = inr resp ->
      json_Decode (w_DecodeItunes w) (resp_Body resp) = inr found ->
      Results found = first :: others ->
      (forall m,
          w_Get w (artworkUrl600 first) = inl m ->
          fetchAlbumArtURL w rev u
          = ([EvGet u; EvGet (artworkUrl600 first)], inr (inl (NetworkError m)))) /\
      (forall resp2 m,
          w_Get w (artworkUrl600 first) = inr resp2 ->
          resp_Body resp2 = Broken m ->
          fetchAlbumArtURL w rev u
          = ([EvGet u; EvGet (artworkUrl600 first)], inr (inl (NetworkError m))))).
Proof.
  unfold fetchAlbumArtURL, http_Get. simpl. split; [| split; [| split]].
  - by intros m ->.
  - intros resp e -> Hdec. simpl. by rewrite Hdec.
  - intros resp found -> Hdec Hnone. simpl. by rewrite Hdec, Hnone.
  - intros resp found first others -> Hdec Hfirst. simpl.
    rewrite Hdec, Hfirst. split.
    + by intros m ->.
    + intros resp2 m -> Hbody. simpl. by rewrite Hbody.
Qed.

Lemma fetchAlbumArtURL_failures_witness :
  fetchAlbumArtURL Sample.online Commented "https://itunes.apple.com/search?term=none"
  = ([EvGet "https://itunes.apple.com/search?term=none"], inr (inl (NetworkError "404"))).
Proof.
  apply (fetchAlbumArtURL_failures Sample.online Commented
           "https://itunes.apple.com/search?term=none").
  reflexivity.
Defined.


Section Absent_token.

Lemma Replace_absent (s old new : string) (n : nat) :
  (forall p, ~ occurs_at p old s) -> Go.Replace s old new n = s.
Proof.
  intros Habsent. unfold Go.Replace. destruct (String.eqb old new); [done |].
  destruct n as [| n]; [done |]. simpl.
  destruct (String.index 0 old s) as [j |] eqn:Hidx; [| done].
  destruct (Habsent j). exact (String.index_correct1 _ _ _ _ Hidx).
Qed.

End Absent_token.

(** X4.  When the artwork URL of the first result does not contain
    "100x100" anywhere, the image is requested from that URL as it is. *)
Theorem artwork_without_token (w : World) (rev : revision) (u : string)
    (resp : Response) (found : itunesResult) (first : itunesEntry)
    (others : list itunesEntry) :
  w_Get w u = inr resp ->
  json_Decode (w_DecodeItunes w) (resp_Body resp) = inr found ->
  Results found = first :: others ->
  (forall p, ~ occurs_at p "100x100" (ArtworkURL100 first)) ->
  requests (fetchAlbumArtURL w rev u) = [u; ArtworkURL100 first].
Proof.
  intros Hget Hdec Hres Habsent.
  assert (artworkUrl600 first = ArtworkURL100 first) as Hsame
    by by apply Replace_absent.
  unfold fetchAlbumArtURL, http_Get. simpl.
  rewrite Hget. simpl. rewrite Hdec, Hres, Hsame.
  destruct (w_Get w (ArtworkURL100 first)) as [m | resp2]; [done |]. simpl.
  by destruct (io_ReadAll _).
Qed.

Lemma substring_length_bound (s : string) (n m : nat) :
  (String.length (String.substring n m s) <= String.length s - n)%nat.
Proof.
  revert n m. induction s as [| c s IH]; intros [| n] [| m]; simpl; try lia.
  - specialize (IH 0%nat m). lia.
  - apply IH.
  - apply IH.
Qed.

Lemma occurs_at_bound (p : nat) (tok s : string) :
  occurs_at p tok s -> (String.length tok <= String.length s - p)%nat.
Proof.
  unfold occurs_at. intros H. rewrite <- H at 1. apply substring_length_bound.
Qed.

Lemma artwork_without_token_witness :
  requests (fetchAlbumArtURL plain_artwork Upstream "http://search")
  = ["http://search"; "http://i/a.jpg"].
Proof.
  apply (artwork_without_token plain_artwork Upstream "http://search"
           {| resp_Body := Bytes "itunes.json"; resp_Header := Sample.header "image/png" |}
           {| Results := [ {| ArtworkURL100 := "http://i/a.jpg" |} ] |}
           {| ArtworkURL100 := "http://i/a.jpg" |} []
           eq_refl eq_refl eq_refl).
  intros p Hat. pose proof (occurs_at_bound _ _ _ Hat) as Hbound.
  unfold occurs_at in Hat. simpl in Hbound, Hat.
  do 8 (destruct p as [| p]; [discriminate Hat |]). lia.
Defined.

(* ================================================================== *)
(** * The search URLs *)
(* ================================================================== *)

Section Escaping.

Lemma upperhex_safe (n : N) : (n < 16)%N -> url_safe (Go.upperhex n) = true.
Proof.
  intros Hn.
  assert (exists k, (k < 16)%nat /\ n = N.of_nat k) as (k & Hk & ->).
  { exists (N.to_nat n). split; lia. }
  do 16 (destruct k as [| k]; [reflexivity |]). lia.
Qed.

Lemma QueryEscape_safe (s : string) :
  Forall (fun c => url_safe c = true) (list_ascii_of_string (Go.QueryEscape s)).
Proof.
  induction s as [| c s IH]; simpl; [constructor |].
  destruct (Ascii.eqb c " "); simpl; [by constructor |].
  destruct (Go.unreserved c) eqn:Hc; simpl.
  - constructor; [| done]. unfold url_safe. by rewrite Hc.
  - assert (N_of_ascii c < 256)%N as Hlt by apply N_ascii_bounded.
    repeat constructor; try done.
    + apply upperhex_safe. apply N.Div0.div_lt_upper_bound. lia.
    + apply upperhex_safe. by apply N.mod_lt.
Qed.

End Escaping.


(* ================================================================== *)
(** * The dry-run listing *)
(* ================================================================== *)



Section Listing.

Context (w : World) (tag : Tag).

Lemma length_concat_fmap {K T U} (f : K -> list T) (g : K -> T -> U) (ks : list K) :
  length (concat ((fun k => g k <$> f k) <$> ks)) = sum_list_with (fun k => length (f k)) ks.
Proof.
  induction ks as [| k ks IH]; [done |].
  rewrite fmap_cons. change (concat (?l :: ?ls)) with (l ++ concat ls).
  by rewrite length_app, length_fmap, IH.
Qed.

Lemma sum_list_with_keys {K V} (g : K -> nat) (h : K * V -> nat) (l : list (K * V)) :
  (forall kv, kv ∈ l -> g kv.1 = h kv) ->
  sum_list_with g (l.*1) = sum_list_with h l.
Proof.
  induction l as [| kv l IH]; intros Hgh; [done |].
  simpl. rewrite (Hgh kv) by left. f_equal. apply IH.
  intros kv' Hin. apply Hgh. by right.
Qed.

Lemma frames_counted :
  sum_list_with (fun k => length (GetFrames k tag)) ((map_to_list (AllFrames tag)).*1)
  = sum_list_with (fun kv => length kv.2) (map_to_list (AllFrames tag)).
Proof.
  apply sum_list_with_keys. intros [k fs] Hin%elem_of_map_to_list.
  unfold GetFrames, AllFrames in *. simpl. by rewrite Hin.
Qed.

End Listing.


(* ================================================================== *)
(** * What a whole run shows *)
(* ================================================================== *)

(** Like [observe_events], with the facts [tac] about the observer. *)
Ltac observe_events_with tac :=
  repeat first
    [ rewrite observe_bind
    | rewrite observe_ret
    | rewrite observe_emit
    | rewrite observe_os_Exit
    | rewrite observe_panic
    | rewrite observe_log_Fatalf
    | tac
    | case_match ];
  try reflexivity.

Lemma trace_defer {A} (d : list event) (m : M A) :
  trace (defer d m)
  = trace m ++ match result m with inl (Exit _) => [] | _ => d end.
Proof.
  destruct m as [t [[s | msg] | a]]; simpl; [by rewrite app_nil_r | done..].
Qed.

Section Observed_steps.

Context {X : Type} (p : event -> option X).
Context (w : World) (rev : revision) (cl : CommandLine).
Context (Hout : forall s, p (EvStdout s) = None).
Context (Hfatal : forall prefix err, p (EvFatal prefix err) = None).
Implicit Types (tag : Tag).

Lemma observe_listFrames tag : observe p (listFrames w tag) = [].
Proof.
  destruct (listFrames_prints w tag) as [lines ->].
  unfold observe. simpl. induction lines as [| l lines IH]; [done |].
  simpl. by rewrite Hout.
Qed.

Lemma observe_commentsStep tag : observe p (commentsStep cl tag) = [].
Proof. unfold commentsStep. observe_events. Qed.

Lemma observe_downloadLrc artist title :
  observe p (downloadLrc w rev artist title) = option_list (p (EvGet (lrclibUrl artist title))).
Proof. rewrite downloadLrc_unfold. unfold observe. simpl. by destruct (p _). Qed.

Lemma observe_fetchAlbumArtURL u :
  (forall url, p (EvGet url) = None) -> observe p (fetchAlbumArtURL w rev u) = [].
Proof.
  intros Hget. unfold fetchAlbumArtURL, http_Get.
  observe_events_with ltac:(rewrite Hget).
Qed.

(** The image step shows nothing to an observer that ignores what it
    prints and logs, unless it sends a request or reads a file that the
    observer sees. *)
Lemma observe_imageStep tag :
  dryRun cl = true \/ embedImage cl <> "auto" \/ (forall url, p (EvGet url) = None) ->
  dryRun cl = true \/ embedImage cl = "auto" \/ (forall name, p (EvReadFile name) = None) ->
  observe p (imageStep w rev cl tag) = [].
Proof.
  intros Hget Hread. unfold imageStep, tag_Artist, tag_Title, os_ReadFile.
  destruct (String.eqb_spec (embedImage cl) ""); cbn [negb]; [done |].
  destruct (String.eqb_spec (embedImage cl) "auto"); cbn [negb].
  - destruct (dryRun cl).
    + observe_events_with ltac:(rewrite Hout).
    + destruct Hget as [? | [? | Hget]]; [done.. |].
      observe_events_with ltac:(first [rewrite Hfatal | rewrite observe_fetchAlbumArtURL by done]).
  - destruct (dryRun cl).
    + observe_events_with ltac:(rewrite Hout).
    + destruct Hread as [? | [? | Hread]]; [done.. |].
      observe_events_with ltac:(first [rewrite Hfatal | rewrite Hread]).
Qed.

Lemma observe_lyricsStep tag :
  embedLyrics cl = "" \/ lyricsAuto rev cl = false \/ (forall url, p (EvGet url) = None) ->
  dryRun cl = true \/ lyricsAuto rev cl = true \/ (forall name, p (EvReadFile name) = None) ->
  observe p (lyricsStep w rev cl tag) = [].
Proof.
  intros Hget Hread. unfold lyricsStep, tag_Artist, tag_Title, os_ReadFile.
  destruct (String.eqb_spec (embedLyrics cl) ""); cbn [negb]; [done |].
  destruct (lyricsAuto rev cl); cbn [negb].
  - destruct Hget as [? | [? | Hget]]; [done.. |].
    observe_events_with
      ltac:(first [rewrite Hfatal | rewrite Hout | rewrite observe_downloadLrc, Hget]).
  - destruct (dryRun cl).
    + observe_events_with ltac:(rewrite Hout).
    + destruct Hread as [? | [? | Hread]]; [done.. |].
      observe_events_with ltac:(first [rewrite Hfatal | rewrite Hread]).
Qed.

Lemma observe_mutate tag :
  dryRun cl = true \/ embedImage cl <> "auto" \/ (forall url, p (EvGet url) = None) ->
  dryRun cl = true \/ embedImage cl = "auto" \/ (forall name, p (EvReadFile name) = None) ->
  embedLyrics cl = "" \/ lyricsAuto rev cl = false \/ (forall url, p (EvGet url) = None) ->
  dryRun cl = true \/ lyricsAuto rev cl = true \/ (forall name, p (EvReadFile name) = None) ->
  observe p (mutate w rev cl tag) = [].
Proof.
  intros Hg1 Hr1 Hg2 Hr2.
  assert (forall t, observe p (imageStep w rev cl t) = []) as Himage
    by (intros t; by apply observe_imageStep).
  assert (forall t, observe p (lyricsStep w rev cl t) = []) as Hlyrics
    by (intros t; by apply observe_lyricsStep).
  unfold mutate.
  repeat first
    [ rewrite observe_bind | rewrite observe_listFrames | rewrite observe_commentsStep
    | rewrite Himage | rewrite Hlyrics | case_match ];
    reflexivity.
Qed.

Lemma observe_saveStep mp3File tag :
  dryRun cl = true \/ (forall t, p (EvSave t) = None) ->
  observe p (saveStep w rev cl mp3File tag) = [].
Proof.
  intros Hsave. unfold saveStep, tag_Save.
  destruct (dryRun cl); cbn [negb]; [done |].
  destruct Hsave as [? | Hsave]; [done |].
  observe_events_with ltac:(first [rewrite Hfatal | rewrite Hout | rewrite Hsave]).
Qed.

End Observed_steps.

Section Run_shape.

Context (w : World) (rev : revision) (cl : CommandLine).

Lemma main_usage :
  flag_Arg cl 0 = "" -> main w rev cl = ([EvUsage], inl (Exit 1)).
Proof. intros Hname. unfold main. by rewrite Hname. Qed.

Lemma main_open_error (m : string) :
  flag_Arg cl 0 <> "" ->
  w_Open w (flag_Arg cl 0) = inl m ->
  main w rev cl
  = ([EvOpen (flag_Arg cl 0); EvFatal "Error opening MP3 file: " (FileError m)],
     inl (Exit 1)).
Proof.
  intros Hname%String.eqb_neq Hopen. unfold main, id3v2_Open.
  rewrite Hname, bind_ret_l. simpl. by rewrite Hopen.
Qed.

(** What an observer sees of a run, from what it sees of the run's parts. *)
Lemma observe_main {X} (p : event -> option X) :
  observe p (main w rev cl) =
  if String.eqb (flag_Arg cl 0) "" then option_list (p EvUsage)
  else
    option_list (p (EvOpen (flag_Arg cl 0))) ++
    match w_Open w (flag_Arg cl 0) with
    | inl m => option_list (p (EvFatal "Error opening MP3 file: " (FileError m)))
    | inr tag =>
        observe p (bind (mutate w rev cl tag) (saveStep w rev cl (flag_Arg cl 0))) ++
        match result (main w rev cl) with
        | inl (Exit _) => []
        | _ => option_list (p EvClose)
        end
    end.
Proof.
  destruct (String.eqb_spec (flag_Arg cl 0) "") as [Hname | Hname].
  { rewrite (main_usage Hname). unfold observe. simpl. by destruct (p _). }
  destruct (w_Open w (flag_Arg cl 0)) as [m | tag] eqn:Hopen.
  - unfold main, id3v2_Open. apply String.eqb_neq in Hname. rewrite Hname, bind_ret_l.
    simpl. rewrite Hopen. unfold observe. simpl.
    by destruct (p (EvOpen _)), (p (EvFatal _ _)).
  - rewrite (main_opened w rev cl tag Hname Hopen).
    rewrite observe_bind, observe_emit, result_bind. simpl.
    rewrite defer_result. f_equal.
    unfold observe at 1. rewrite trace_defer, omap_app. f_equal.
    destruct (result _) as [[s | msg] | a]; simpl; by destruct (p EvClose).
Qed.

End Run_shape.

(** X8.  The file is opened at most once, after the argument check and
    before anything else; a failed open is fatal at once.  The deferred
    close runs exactly when the file was opened and the run does not end
    through [os.Exit]: every fatal error after the open leaves the tag
    unclosed. *)
Theorem run_framing (w : World) (rev : revision) (cl : CommandLine) :
  observe framing (main w rev cl) =
  if String.eqb (flag_Arg cl 0) "" then [EvUsage]
  else match w_Open w (flag_Arg cl 0), result (main w rev cl) with
       | inr _, inr _ | inr _, inl (Panic _) => [EvOpen (flag_Arg cl 0); EvClose]
       | _, _ => [EvOpen (flag_Arg cl 0)]
       end.
Proof.
  rewrite observe_main. destruct (String.eqb _ _); [done |].
  destruct (w_Open w (flag_Arg cl 0)) as [m | tag]; simpl.
  { by repeat case_match. }
  rewrite observe_bind, observe_mutate by first [done | by right; right].
  simpl. f_equal.
  destruct (result (mutate w rev cl tag)) as [h | tag'].
  - by repeat case_match.
  - rewrite observe_saveStep by first [done | by right]. by repeat case_match.
Qed.

(** X9.  When the file cannot be opened, the run is the open, the fatal log
    of that error and exit status 1: no request, no other file, no save. *)
Theorem main_open_fails (w : World) (rev : revision) (cl : CommandLine) (m : string) :
  flag_Arg cl 0 <> "" ->
  w_Open w (flag_Arg cl 0) = inl m ->
  main w rev cl
  = ([EvOpen (flag_Arg cl 0); EvFatal "Error opening MP3 file: " (FileError m)],
     inl (Exit 1)).
Proof. apply main_open_error. Qed.

Lemma main_open_fails_witness :
  main Sample.online Upstream (Sample.cmd "auto" "auto" false ["missing.mp3"])
  = ([EvOpen "missing.mp3"; EvFatal "Error opening MP3 file: " (FileError "no such file")],
     inl (Exit 1)).
Proof.
  apply (main_open_fails Sample.online Upstream
           (Sample.cmd "auto" "auto" false ["missing.mp3"]) "no such file").
  - discriminate.
  - reflexivity.
Defined.

(** X10.  A dry run reads neither the image file nor the lyrics file: a path
    that does not exist goes unnoticed. *)
Theorem dry_run_reads_nothing (w : World) (rev : revision) (cl : CommandLine) :
  dryRun cl = true ->
  observe read_file (main w rev cl) = [].
Proof.
  intros Hdry. rewrite observe_main. destruct (String.eqb _ _); [done |].
  destruct (w_Open w (flag_Arg cl 0)) as [m | tag]; [done |]. simpl.
  rewrite observe_bind.
  rewrite (observe_mutate read_file) by first [done | by left | by right; right].
  destruct (result (mutate w rev cl tag)) as [h | tag'].
  - by repeat case_match.
  - rewrite observe_saveStep by first [done | by left]. by repeat case_match.
Qed.

Lemma dry_run_reads_nothing_witness :
  observe read_file
    (main Sample.online Commented (Sample.cmd "cover.jpg" "lyrics.lrc" true ["song.mp3"]))
  = [].
Proof.
  by apply (dry_run_reads_nothing Sample.online Commented
              (Sample.cmd "cover.jpg" "lyrics.lrc" true ["song.mp3"])).
Defined.

(** X11.  When neither the image flag nor the lyrics flag is "auto", the run
    sends no request at all. *)
Theorem local_sources_no_network (w : World) (rev : revision) (cl : CommandLine) :
  embedImage cl <> "auto" ->
  embedLyrics cl <> "auto" ->
  requests (main w rev cl) = [].
Proof.
  intros Himage Hlyrics.
  assert (lyricsAuto rev cl = false) as Hauto.
  { unfold lyricsAuto. destruct rev; by apply String.eqb_neq. }
  rewrite observe_main. destruct (String.eqb _ _); [done |].
  destruct (w_Open w (flag_Arg cl 0)) as [m | tag]; [done |]. simpl.
  rewrite observe_bind.
  rewrite (observe_mutate requested_url)
    by first [done | by right; left | by right; right].
  destruct (result (mutate w rev cl tag)) as [h | tag']; simpl.
  - by repeat case_match.
  - rewrite observe_saveStep by first [done | by right]. by repeat case_match.
Qed.

Lemma local_sources_no_network_witness :
  requests (main Sample.online Upstream (Sample.cmd "cover.jpg" "lyrics.lrc" false ["song.mp3"]))
  = [].
Proof.
  by apply (local_sources_no_network Sample.online Upstream
              (Sample.cmd "cover.jpg" "lyrics.lrc" false ["song.mp3"])).
Defined.

(* ================================================================== *)
(** * How a run ends *)
(* ================================================================== *)

Section Outcomes.

Context (w : World) (rev : revision) (cl : CommandLine).
Implicit Types (tag : Tag).

Lemma fetchAlbumArtURL_returns u : exists r, result (fetchAlbumArtURL w rev u) = inr r.
Proof.
  unfold fetchAlbumArtURL, http_Get. simpl.
  destruct (w_Get w u) as [m | resp]; simpl; [by eexists |].
  destruct (json_Decode _ _) as [e | found]; [by eexists |].
  destruct (Results found) as [| first others]; [by eexists |].
  simpl. destruct (w_Get w (artworkUrl600 first)) as [m | resp2]; simpl; [by eexists |].
  destruct (io_ReadAll _); by eexists.
Qed.

Lemma downloadLrc_returns artist title :
  exists r, result (downloadLrc w rev artist title) = inr r.
Proof. rewrite downloadLrc_unfold. by eexists. Qed.

Lemma listing_returns tag :
  result (if dryRun cl then listFrames w tag else ret tt) = inr tt.
Proof. by destruct (listing_prints w cl tag) as [lines ->]. Qed.

(** Going through the results of a step, with the lookups returning. *)
Ltac step_results :=
  repeat first
    [ rewrite result_bind
    | match goal with
      | |- context [result (fetchAlbumArtURL w rev ?u)] =>
          let r := fresh "r" in
          destruct (fetchAlbumArtURL_returns u) as [r ->]
      | |- context [result (downloadLrc w rev ?a ?t)] =>
          let r := fresh "r" in
          destruct (downloadLrc_returns a t) as [r ->]
      end
    | case_match ];
  simpl; try (intros; simplify_eq); try done.

Lemma imageStep_exit tag status :
  result (imageStep w rev cl tag) = inl (Exit status) -> status = 1.
Proof. unfold imageStep, tag_Artist, tag_Title, os_ReadFile. step_results. Qed.

Lemma lyricsStep_exit tag status :
  result (lyricsStep w rev cl tag) = inl (Exit status) -> status = 1.
Proof. unfold lyricsStep, tag_Artist, tag_Title, os_ReadFile. step_results. Qed.

Lemma saveStep_result mp3File tag :
  result (saveStep w rev cl mp3File tag) = inr tt \/
  result (saveStep w rev cl mp3File tag) = inl (Exit 1).
Proof.
  unfold saveStep, tag_Save. destruct (dryRun cl); simpl; [by left |].
  destruct (w_Save w tag); simpl; by eauto.
Qed.

Lemma mutate_exit tag status :
  result (mutate w rev cl tag) = inl (Exit status) -> status = 1.
Proof.
  unfold mutate. rewrite result_bind, listing_returns, result_bind.
  unfold commentsStep at 1. destruct (fixComments _ _) as [tag1 |]; simpl; [| done].
  rewrite result_bind.
  destruct (result (imageStep w rev cl tag1)) as [[s | msg] | tag2] eqn:Himage.
  - intros [= <-]. by apply (imageStep_exit tag1).
  - done.
  - apply lyricsStep_exit.
Qed.

Lemma imageStep_no_panic tag msg :
  is_Some (Artist tag) -> is_Some (Title tag) ->
  result (imageStep w rev cl tag) <> inl (Panic msg).
Proof.
  intros [artist Hartist] [title Htitle].
  unfold imageStep, tag_Artist, tag_Title, os_ReadFile. rewrite Hartist, Htitle.
  step_results.
Qed.

Lemma lyricsStep_no_panic tag msg :
  is_Some (Artist tag) -> is_Some (Title tag) ->
  result (lyricsStep w rev cl tag) <> inl (Panic msg).
Proof.
  intros [artist Hartist] [title Htitle].
  unfold lyricsStep, tag_Artist, tag_Title, os_ReadFile. rewrite Hartist, Htitle.
  step_results.
Qed.

Lemma mutate_no_panic tag msg :
  well_typed tag -> result (mutate w rev cl tag) <> inl (Panic msg).
Proof.
  intros Htyped.
  destruct (typed_start cl tag Htyped)
    as (artist & title & tag1 & _ & _ & Hfix & Hartist1 & Htitle1).
  unfold mutate. rewrite result_bind, listing_returns, result_bind, Hfix, result_bind.
  destruct (result (imageStep w rev cl tag1)) as [[s | msg'] | tag2] eqn:Himage.
  - done.
  - intros [= ->]. by apply (imageStep_no_panic tag1 msg).
  - destruct (imageStep_keeps_names w rev cl tag1 tag2 Himage) as [Hartist2 Htitle2].
    apply lyricsStep_no_panic; by rewrite ?Hartist2, ?Htitle2, ?Hartist1, ?Htitle1.
Qed.

(** The result of a run, from the results of its parts. *)
Lemma result_main :
  result (main w rev cl) =
  if String.eqb (flag_Arg cl 0) "" then inl (Exit 1)
  else match w_Open w (flag_Arg cl 0) with
       | inl _ => inl (Exit 1)
       | inr tag =>
           match result (mutate w rev cl tag) with
           | inl h => inl h
           | inr tag' => result (saveStep w rev cl (flag_Arg cl 0) tag')
           end
       end.
Proof.
  destruct (String.eqb_spec (flag_Arg cl 0) "") as [Hname | Hname].
  { by rewrite (main_usage w rev cl Hname). }
  destruct (w_Open w (flag_Arg cl 0)) as [m | tag] eqn:Hopen.
  { by rewrite (main_open_error w rev cl m Hname Hopen). }
  rewrite (main_opened w rev cl tag Hname Hopen), result_bind. simpl.
  by rewrite defer_result, result_bind.
Qed.

End Outcomes.



(* ================================================================== *)
(** * What a saved tag holds *)
(* ================================================================== *)

Section Saved_tag.

Context (w : World) (rev : revision) (cl : CommandLine).
Implicit Types (tag : Tag).

(** A tag is saved only at the end of a run that is not a dry run, after
    the three steps have returned in turn. *)
Lemma saved_inv tag' :
  tag' ∈ saved (main w rev cl) ->
  dryRun cl = false /\
  exists tag tag1 tag2,
    w_Open w (flag_Arg cl 0) = inr tag /\
    fixComments (embedLang cl) (SetDefaultEncoding EncodingUTF16 tag) = Some tag1 /\
    result (imageStep w rev cl tag1) = inr tag2 /\
    result (lyricsStep w rev cl tag2) = inr tag'.
Proof.
  rewrite saved_main.
  destruct (String.eqb _ _); [by intros ?%elem_of_nil |].
  destruct (w_Open w (flag_Arg cl 0)) as [m | tag]; [by intros ?%elem_of_nil |].
  destruct (result (mutate w rev cl tag)) as [h | t] eqn:Hmutate;
    [by intros ?%elem_of_nil |].
  destruct (dryRun cl); [by intros ?%elem_of_nil |].
  intros ->%list_elem_of_singleton. split; [done |].
  destruct (mutate_returns w rev cl tag t Hmutate) as (tag1 & tag2 & ? & ? & ?).
  by exists tag, tag1, tag2.
Qed.

(** The image step outside a dry run, when it returns. *)
Lemma imageStep_inv tag tag' :
  dryRun cl = false ->
  result (imageStep w rev cl tag) = inr tag' ->
  (embedImage cl = "" /\ tag' = tag) \/
  (embedImage cl = "auto" /\
   exists artist title b ct,
     Artist tag = Some artist /\ Title tag = Some title /\
     result (fetchAlbumArtURL w rev (coverArtUrl artist title)) = inr (inr (b, ct)) /\
     tag' = setPicture (coverPicture ct b) tag) \/
  (embedImage cl <> "" /\ embedImage cl <> "auto" /\
   exists b,
     w_ReadFile w (embedImage cl) = inr b /\
     tag' = setPicture (coverPicture (w_DetectContentType w b) b) tag).
Proof.
  intros Hdry. unfold imageStep, tag_Artist, tag_Title, os_ReadFile. rewrite Hdry.
  destruct (String.eqb_spec (embedImage cl) "") as [| Hset]; cbn [negb].
  { intros [= <-]. by left. }
  destruct (String.eqb_spec (embedImage cl) "auto") as [Hauto | Hfile].
  - destruct (Artist tag) as [artist |]; [| done]. rewrite bind_ret_l.
    destruct (Title tag) as [title |]; [| done]. rewrite bind_ret_l, result_bind.
    destruct (result (fetchAlbumArtURL w rev _)) as [h | [err | [b ct]]] eqn:Hfetch;
      [done.. |].
    intros [= <-]. right. left. split; [done |]. by exists artist, title, b, ct.
  - simpl. destruct (w_ReadFile w (embedImage cl)) as [m | b]; [done |].
    intros [= <-]. right. right. split; [done |]. split; [done |]. by exists b.
Qed.

(** The lyrics step outside a dry run, when it returns. *)
Lemma lyricsStep_inv tag tag' :
  dryRun cl = false ->
  result (lyricsStep w rev cl tag) = inr tag' ->
  (embedLyrics cl = "" /\ tag' = tag) \/
  (embedLyrics cl <> "" /\
   exists lyrics,
     tag' = setLyrics (lyricsFrame (embedLang cl) lyrics) tag /\
     if lyricsAuto rev cl
     then exists artist title,
            Artist tag = Some artist /\ Title tag = Some title /\
            result (downloadLrc w rev artist title) = inr (inr lyrics)
     else w_ReadFile w (embedLyrics cl) = inr lyrics).
Proof.
  intros Hdry. unfold lyricsStep, tag_Artist, tag_Title, os_ReadFile. rewrite Hdry.
  destruct (String.eqb_spec (embedLyrics cl) "") as [| Hset]; cbn [negb].
  { intros [= <-]. by left. }
  destruct (lyricsAuto rev cl).
  - destruct (Artist tag) as [artist |]; [| done]. rewrite bind_ret_l.
    destruct (Title tag) as [title |]; [| done]. rewrite bind_ret_l, result_bind.
    destruct (result (downloadLrc w rev _ _)) as [h | [err | lyrics]] eqn:Hfetch;
      [done.. |].
    intros [= <-]. right. split; [done |]. exists lyrics. split; [done |].
    by exists artist, title.
  - simpl. destruct (w_ReadFile w (embedLyrics cl)) as [m | b]; [done |].
    intros [= <-]. right. split; [done |]. by exists b.
Qed.

Lemma fixComments_encoding lang tag tag' :
  fixComments lang tag = Some tag' -> defaultEncoding tag' = defaultEncoding tag.
Proof.
  unfold fixComments. repeat case_match; intros; by simplify_eq.
Qed.

Lemma fixComments_names lang enc tag tag' :
  fixComments lang (SetDefaultEncoding enc tag) = Some tag' ->
  Artist tag' = Artist tag /\ Title tag' = Title tag.
Proof.
  intros Hfix. unfold Artist, Title.
  split; apply GetTextFrame_Text_ext;
    by rewrite (fixComments_other _ _ _ _ Hfix).
Qed.

End Saved_tag.

(** X13.  Every tag that a run with an image flag saves has exactly one
    picture frame, whatever pictures the file had: a front cover called
    "Cover Art" in the ISO encoding.  With a file path its picture is the
    content of that file and its MIME type is the sniffed one; with "auto"
    they are the bytes and the content type that the cover-art fetch
    returned for the artist and title of the opened tag. *)
Theorem saved_picture (w : World) (rev : revision) (cl : CommandLine) (tag tag' : Tag) :
  w_Open w (flag_Arg cl 0) = inr tag ->
  embedImage cl <> "" ->
  tag' ∈ saved (main w rev cl) ->
  exists b ct,
    GetFrames (CommonID "Attached picture") tag'
    = [FPicture {| pf_Encoding := EncodingISO;
                   pf_MimeType := ct;
                   pf_PictureType := PTFrontCover;
                   pf_Description := "Cover Art";
                   pf_Picture := b |}] /\
    if String.eqb (embedImage cl) "auto"
    then exists artist title,
           Artist tag = Some artist /\ Title tag = Some title /\
           result (fetchAlbumArtURL w rev (coverArtUrl artist title)) = inr (inr (b, ct))
    else w_ReadFile w (embedImage cl) = inr b /\ ct = w_DetectContentType w b.
Proof.
  intros Hopen Hset (Hdry & tag0 & tag1 & tag2 & Hopen' & Hfix & Himage & Hlyrics)%saved_inv.
  rewrite Hopen in Hopen'. injection Hopen' as <-.
  destruct (fixComments_names _ _ _ _ Hfix) as [Hartist Htitle].
  rewrite (lyricsStep_frames _ _ _ _ _ _ Hlyrics) by done.
  destruct (imageStep_inv w rev cl tag1 tag2 Hdry Himage)
    as [[? _] | [(Hauto & artist & title & b & ct & Ha & Ht & Hfetch & ->)
               | (_ & Hfile & b & Hread & ->)]]; [done | |].
  - exists b, ct. split; [apply GetFrames_replace |].
    rewrite Hauto. simpl. exists artist, title. by rewrite <- Hartist, <- Htitle.
  - exists b, (w_DetectContentType w b). split; [apply GetFrames_replace |].
    apply String.eqb_neq in Hfile. by rewrite Hfile.
Qed.

Lemma saved_picture_witness :
  saved (main Sample.online Upstream (Sample.cmd "auto" "" false ["song.mp3"])) <> [] /\
  forall t,
    t ∈ saved (main Sample.online Upstream (Sample.cmd "auto" "" false ["song.mp3"])) ->
    exists b ct,
      GetFrames (CommonID "Attached picture") t = [FPicture (coverPicture ct b)] /\
      exists artist title,
        Artist Sample.tag = Some artist /\ Title Sample.tag = Some title /\
        result (fetchAlbumArtURL Sample.online Upstream (coverArtUrl artist title))
        = inr (inr (b, ct)).
Proof.
  split; [by vm_compute |].
  intros t Ht.
  apply (saved_picture Sample.online Upstream (Sample.cmd "auto" "" false ["song.mp3"])
           Sample.tag t eq_refl); [discriminate | exact Ht].
Defined.

(** X14.  Every tag that a run with a lyrics flag saves has exactly one
    lyrics frame, whatever lyrics the file had: UTF-8, in the language of
    the command line, with the content descriptor "Lyrics".  Its text is
    what the lookup returned for the artist and title of the opened tag when
    the automatic branch is taken, and the content of the lyrics file
    otherwise. *)
Theorem saved_lyrics (w : World) (rev : revision) (cl : CommandLine) (tag tag' : Tag) :
  w_Open w (flag_Arg cl 0) = inr tag ->
  embedLyrics cl <> "" ->
  tag' ∈ saved (main w rev cl) ->
  exists lyrics,
    GetFrames (CommonID "Unsynchronised lyrics/text transcription") tag'
    = [FLyrics {| ulf_Encoding := EncodingUTF8;
                  ulf_Language := embedLang cl;
                  ulf_ContentDescriptor := "Lyrics";
                  ulf_Lyrics := lyrics |}] /\
    if lyricsAuto rev cl
    then exists artist title,
           Artist tag = Some artist /\ Title tag = Some title /\
           result (downloadLrc w rev artist title) = inr (inr lyrics)
    else w_ReadFile w (embedLyrics cl) = inr lyrics.
Proof.
  intros Hopen Hset (Hdry & tag0 & tag1 & tag2 & Hopen' & Hfix & Himage & Hlyrics)%saved_inv.
  rewrite Hopen in Hopen'. injection Hopen' as <-.
  destruct (fixComments_names _ _ _ _ Hfix) as [Hartist Htitle].
  destruct (imageStep_keeps_names w rev cl tag1 tag2 Himage) as [Hartist2 Htitle2].
  destruct (lyricsStep_inv w rev cl tag2 tag' Hdry Hlyrics)
    as [[? _] | (_ & lyrics & -> & Hsource)]; [done |].
  exists lyrics. split; [apply GetFrames_replace |].
  destruct (lyricsAuto rev cl); [| done].
  destruct Hsource as (artist & title & Ha & Ht & Hfetch).
  exists artist, title. by rewrite <- Hartist, <- Htitle, <- Hartist2, <- Htitle2.
Qed.

Lemma saved_lyrics_witness :
  saved (main Sample.online Commented (Sample.cmd "" "lyrics.lrc" false ["song.mp3"])) <> [] /\
  forall t,
    t ∈ saved (main Sample.online Commented (Sample.cmd "" "lyrics.lrc" false ["song.mp3"])) ->
    exists lyrics,
      GetFrames (CommonID "Unsynchronised lyrics/text transcription") t
      = [FLyrics (lyricsFrame "jpn" lyrics)] /\
      w_ReadFile Sample.online "lyrics.lrc" = inr lyrics.
Proof.
  split; [by vm_compute |].
  intros t Ht.
  apply (saved_lyrics Sample.online Commented (Sample.cmd "" "lyrics.lrc" false ["song.mp3"])
           Sample.tag t eq_refl); [discriminate | exact Ht].
Defined.

(** X15.  A saved tag has the UTF-16 default encoding, and its frames under
    every ID other than those of comments, pictures and lyrics are the
    frames of the opened file.  Without an image flag the pictures are kept,
    without a lyrics flag the lyrics are kept, and a tag without comments
    gets none. *)
Theorem saved_other_frames (w : World) (rev : revision) (cl : CommandLine) (tag tag' : Tag) :
  w_Open w (flag_Arg cl 0) = inr tag ->
  tag' ∈ saved (main w rev cl) ->
  defaultEncoding tag' = EncodingUTF16 /\
  (forall id,
      id <> CommonID "Comments" ->
      id <> CommonID "Attached picture" ->
      id <> CommonID "Unsynchronised lyrics/text transcription" ->
      GetFrames id tag' = GetFrames id tag) /\
  (embedImage cl = "" ->
   GetFrames (CommonID "Attached picture") tag'
   = GetFrames (CommonID "Attached picture") tag) /\
  (embedLyrics cl = "" ->
   GetFrames (CommonID "Unsynchronised lyrics/text transcription") tag'
   = GetFrames (CommonID "Unsynchronised lyrics/text transcription") tag) /\
  (GetFrames (CommonID "Comments") tag = [] ->
   GetFrames (CommonID "Comments") tag' = []).
Proof.
  intros Hopen (Hdry & tag0 & tag1 & tag2 & Hopen' & Hfix & Himage & Hlyrics)%saved_inv.
  rewrite Hopen in Hopen'. injection Hopen' as <-.
  pose proof (fixComments_encoding _ _ _ Hfix) as Henc1.
  pose proof (fun id => fixComments_other _ _ _ id Hfix) as Hother1.
  pose proof (fun id => imageStep_frames w rev cl tag1 tag2 id Himage) as Hother2.
  pose proof (fun id => lyricsStep_frames w rev cl tag2 tag' id Hlyrics) as Hother3.
  split; [| split; [| split; [| split]]].
  - destruct (lyricsStep_inv w rev cl tag2 tag' Hdry Hlyrics)
      as [[_ ->] | (_ & lyrics & -> & _)];
    destruct (imageStep_inv w rev cl tag1 tag2 Hdry Himage)
      as [[_ ->] | [(_ & ? & ? & ? & ? & _ & _ & _ & ->) | (_ & _ & ? & _ & ->)]];
    exact Henc1.
  - intros id Hc Hp Hl. by rewrite Hother3, Hother2, Hother1.
  - intros Hnone. rewrite Hother3 by done.
    destruct (imageStep_inv w rev cl tag1 tag2 Hdry Himage)
      as [[_ ->] | [(? & _) | (? & _)]]; [| congruence..].
    by rewrite Hother1.
  - intros Hnone.
    destruct (lyricsStep_inv w rev cl tag2 tag' Hdry Hlyrics)
      as [[_ ->] | (? & _)]; [| congruence].
    by rewrite Hother2, Hother1.
  - intros Hnone. rewrite Hother3, Hother2 by done.
    rewrite (fixComments_none (embedLang cl) (SetDefaultEncoding EncodingUTF16 tag)) in Hfix
      by done.
    by injection Hfix as <-.
Qed.

Lemma saved_other_frames_witness :
  saved (main Sample.online Commented (Sample.cmd "auto" "auto" false ["song.mp3"])) <> [] /\
  forall t,
    t ∈ saved (main Sample.online Commented (Sample.cmd "auto" "auto" false ["song.mp3"])) ->
    defaultEncoding t = EncodingUTF16 /\
    GetFrames "TPE1" t = [Sample.textFrame "A"] /\
    GetFrames "TIT2" t = [Sample.textFrame "T"].
Proof.
  split; [by vm_compute |].
  intros t Ht.
  destruct (saved_other_frames Sample.online Commented
              (Sample.cmd "auto" "auto" false ["song.mp3"]) Sample.tag t eq_refl Ht)
    as (Henc & Hother & _).
  split; [exact Henc |].
  split; by rewrite Hother.
Defined.

(** X16.  Saving is the last thing that can go wrong.  When a run has saved
    a tag and the save succeeded, the run returns from [main]; when the save
    failed, the run ends in a fatal log of that error with exit status 1. *)
Theorem save_is_final (w : World) (rev : revision) (cl : CommandLine) (tag' : Tag) :
  tag' ∈ saved (main w rev cl) ->
  (w_Save w tag' = None /\ result (main w rev cl) = inr tt) \/
  (exists m, w_Save w tag' = Some m /\ dies_with (FileError m) (main w rev cl)).
Proof.
  rewrite saved_main.
  destruct (String.eqb_spec (flag_Arg cl 0) "") as [| Hname]; [by intros ?%elem_of_nil |].
  destruct (w_Open w (flag_Arg cl 0)) as [m | tag] eqn:Hopen; [by intros ?%elem_of_nil |].
  destruct (result (mutate w rev cl tag)) as [h | t] eqn:Hmutate;
    [by intros ?%elem_of_nil |].
  destruct (dryRun cl) eqn:Hdry; [by intros ?%elem_of_nil |].
  intros ->%list_elem_of_singleton.
  assert (saveStep w rev cl (flag_Arg cl 0) t
          = match w_Save w t with
            | Some m => ([EvSave t; EvFatal "Error saving MP3 file: " (FileError m)],
                         inl (Exit 1))
            | None => ([EvSave t;
                        EvStdout (Go.Sprintln [text rev "Image embedded successfully in"
                                                         "Embedded successfully in";
                                               flag_Arg cl 0])], inr tt)
            end) as Hsave.
  { unfold saveStep, tag_Save. rewrite Hdry. simpl. by destruct (w_Save w t). }
  destruct (w_Save w t) as [m |] eqn:Hfails.
  - right. exists m. split; [done |].
    rewrite (main_opened w rev cl tag Hname Hopen).
    apply (dies_with_bind_r _ _ _ tt); [done |]. apply dies_with_defer.
    apply (dies_with_bind_r _ _ _ t Hmutate). rewrite Hsave.
    by exists [EvSave t], "Error saving MP3 file: ".
  - left. split; [done |].
    rewrite result_main, Hopen, Hmutate, Hsave.
    apply String.eqb_neq in Hname. by rewrite Hname.
Qed.

Lemma save_is_final_witness :
  saved (main Sample.online Upstream (Sample.cmd "" "" false ["song.mp3"])) <> [] /\
  forall t,
    t ∈ saved (main Sample.online Upstream (Sample.cmd "" "" false ["song.mp3"])) ->
    result (main Sample.online Upstream (Sample.cmd "" "" false ["song.mp3"])) = inr tt.
Proof.
  split; [by vm_compute |].
  intros t Ht.
  destruct (save_is_final Sample.online Upstream (Sample.cmd "" "" false ["song.mp3"]) t Ht)
    as [[_ Hret] | (m & Hfails & _)]; [exact Hret | discriminate Hfails].
Defined.

(** X17.  The comment fix is idempotent: applied to its own result with the
    same language it changes nothing. *)
Theorem fixComments_idempotent (lang : string) (tag tag' : Tag) :
  fixComments lang tag = Some tag' ->
  fixComments lang tag' = Some tag'.
Proof.
  unfold fixComments at 1.
  destruct (GetFrames (CommonID "Comments") tag) as [| [| c0 | | |] rest] eqn:Hcomments;
    try done.
  - intros [= <-]. by apply fixComments_none.
  - intros [= <-].
    rewrite (fixComments_first lang _ (fixedComment lang c0) []);
      [| apply GetFrames_replace].
    f_equal. unfold AddCommentFrame, AddFrame.
    rewrite !GetFrames_DeleteFrames. simpl.
    unfold DeleteFrames. simpl.
    by rewrite delete_insert_eq, delete_delete_eq.
Qed.

Lemma fixComments_idempotent_witness :
  exists t, fixComments "jpn" Sample.tag = Some t /\ fixComments "jpn" t = Some t.
Proof.
  eexists. split; [reflexivity |].
  by apply (fixComments_idempotent "jpn" Sample.tag).
Defined.

Section Unreadable.

Context (w : World) (rev : revision) (cl : CommandLine).
Context (Hdry : dryRun cl = false).

Lemma imageStep_unreadable (tag : Tag) (m : string) :
  embedImage cl <> "" ->
  embedImage cl <> "auto" ->
  w_ReadFile w (embedImage cl) = inl m ->
  imageStep w rev cl tag
  = ([EvReadFile (embedImage cl);
      EvFatal (text rev "Error read album art image: " "Error reading album art image: ")
              (FileError m)],
     inl (Exit 1)).
Proof.
  intros Hset%String.eqb_neq Hfile%String.eqb_neq Hread.
  unfold imageStep, os_ReadFile. rewrite Hset, Hfile, Hdry. simpl. by rewrite Hread.
Qed.

Lemma lyricsStep_unreadable (tag : Tag) (m : string) :
  embedLyrics cl <> "" ->
  lyricsAuto rev cl = false ->
  w_ReadFile w (embedLyrics cl) = inl m ->
  lyricsStep w rev cl tag
  = ([EvReadFile (embedLyrics cl);
      EvFatal (text rev "Error read lyrics file: " "Error reading lyrics file: ")
              (FileError m)],
     inl (Exit 1)).
Proof.
  intros Hset%String.eqb_neq Hauto Hread.
  unfold lyricsStep, os_ReadFile. rewrite Hset, Hauto, Hdry. simpl. by rewrite Hread.
Qed.

End Unreadable.

(** X18.  Outside a dry run, on a file that opens with well-typed frames: an
    image file that cannot be read ends the run at once, which then is the
    open, the read and the fatal log of the read error, with exit status 1;
    the lyrics are not looked at and nothing is saved.  Without an image
    flag, a lyrics file that cannot be read ends the run in the same way. *)
Theorem unreadable_file_is_fatal (w : World) (rev : revision) (cl : CommandLine)
    (tag : Tag) (m : string) :
  flag_Arg cl 0 <> "" ->
  w_Open w (flag_Arg cl 0) = inr tag ->
  well_typed tag ->
  dryRun cl = false ->
  (embedImage cl <> "" ->
   embedImage cl <> "auto" ->
   w_ReadFile w (embedImage cl) = inl m ->
   main w rev cl
   = ([EvOpen (flag_Arg cl 0);
       EvReadFile (embedImage cl);
       EvFatal (text rev "Error read album art image: " "Error reading album art image: ")
               (FileError m)],
      inl (Exit 1))) /\
  (embedImage cl = "" ->
   embedLyrics cl <> "" ->
   lyricsAuto rev cl = false ->
   w_ReadFile w (embedLyrics cl) = inl m ->
   main w rev cl
   = ([EvOpen (flag_Arg cl 0);
       EvReadFile (embedLyrics cl);
       EvFatal (text rev "Error read lyrics file: " "Error reading lyrics file: ")
               (FileError m)],
      inl (Exit 1))).
Proof.
  intros Hname Hopen Htyped Hdry.
  destruct (well_typed_fixComments (embedLang cl) EncodingUTF16 tag Htyped)
    as (tag1 & Hfix & _).
  rewrite (main_opened w rev cl tag Hname Hopen).
  unfold mutate, commentsStep. rewrite Hdry, Hfix, !bind_ret_l. split.
  - intros Hset Hfile Hread.
    by rewrite (imageStep_unreadable w rev cl Hdry tag1 m Hset Hfile Hread).
  - intros Hnone Hset Hauto Hread.
    assert (imageStep w rev cl tag1 = ret tag1) as ->.
    { unfold imageStep. by rewrite Hnone. }
    by rewrite bind_ret_l, (lyricsStep_unreadable w rev cl Hdry tag1 m Hset Hauto Hread).
Qed.

Lemma unreadable_file_is_fatal_witness :
  main Sample.online Commented (Sample.cmd "cover.jpg" "auto" false ["song.mp3"])
  = ([EvOpen "song.mp3"; EvReadFile "cover.jpg";
      EvFatal "Error reading album art image: " (FileError "no such file")],
     inl (Exit 1)).
Proof.
  apply (unreadable_file_is_fatal Sample.online Commented
           (Sample.cmd "cover.jpg" "auto" false ["song.mp3"]) Sample.tag "no such file").
  - discriminate.
  - reflexivity.
  - repeat split; repeat constructor; by eexists.
  - reflexivity.
  - discriminate.
  - discriminate.
  - reflexivity.
Defined.

(** X19.  Without an image flag and without a lyrics flag the run still
    rewrites the file: outside a dry run it saves the tag with the UTF-16
    default encoding and the comment fix once, reports success and closes
    the tag. *)
Theorem no_flags_still_saves (w : World) (rev : revision) (cl : CommandLine)
    (tag tag1 : Tag) :
  flag_Arg cl 0 <> "" ->
  w_Open w (flag_Arg cl 0) = inr tag ->
  dryRun cl = false ->
  embedImage cl = "" ->
  embedLyrics cl = "" ->
  fixComments (embedLang cl) (SetDefaultEncoding EncodingUTF16 tag) = Some tag1 ->
  w_Save w tag1 = None ->
  main w rev cl
  = ([EvOpen (flag_Arg cl 0);
      EvSave tag1;
      EvStdout (Go.Sprintln [text rev "Image embedded successfully in"
                                      "Embedded successfully in"; flag_Arg cl 0]);
      EvClose],
     inr tt).
Proof.
  intros Hname Hopen Hdry Himage Hlyrics Hfix Hsave.
  rewrite (main_opened w rev cl tag Hname Hopen).
  unfold mutate, commentsStep, imageStep, lyricsStep, saveStep, tag_Save.
  rewrite Hdry, Hfix, Himage, Hlyrics. simpl. by rewrite Hsave.
Qed.

Lemma no_flags_still_saves_witness :
  exists t,
    main Sample.online Upstream (Sample.cmd "" "" false ["song.mp3"])
    = ([EvOpen "song.mp3"; EvSave t;
        EvStdout (Go.Sprintln ["Image embedded successfully in"; "song.mp3"]); EvClose],
       inr tt).
Proof.
  eexists.
  apply (no_flags_still_saves Sample.online Upstream (Sample.cmd "" "" false ["song.mp3"])
           Sample.tag); try reflexivity.
  discriminate.
Defined.
